(** * The cash-out transaction engine of lamassu-server

    A shallow embedding of the cash-out transaction module ([post], [cancel]
    and their helpers): the status ratchet, the field-level diff,
    insert/update of the [cash_out_txs] row, the audit log
    ([cash_out_actions]), pre- and post-processing around the upsert, and the
    operator's cancel.

    JavaScript objects are finite maps from property names to values, the
    database tables are lists of rows, and the promise chains are computations
    in a state-and-error monad over the tables. *)

From stdpp Require Import gmap strings list fin_maps pretty.
From Stdlib Require Import ZArith Lia.

Module CashOutTx.

Open Scope Z_scope.

(** ** JavaScript values *)

(** The primitive values a transaction property or a table column holds.
    Numbers are integers here (no NaN, no fractions). *)
Inductive value :=
| VUndefined
| VNull
| VBool (b : bool)
| VNum (n : Z)
| VStr (s : string).

#[global] Instance value_eq_dec : EqDecision value.
Proof. solve_decision. Defined.

(** [_.isNil]. *)
Definition isNil (v : value) : bool :=
  match v with
  | VUndefined | VNull => true
  | _ => false
  end.

(** ToBoolean, as [!x] and [x && y] read a value. *)
Definition truthy (v : value) : bool :=
  match v with
  | VUndefined | VNull => false
  | VBool b => b
  | VNum n => negb (n =? 0)
  | VStr s => negb (bool_decide (s = ""))
  end.

(** [a === b] on primitives. *)
Definition strictEq (a b : value) : bool := bool_decide (a = b).

(** [value.toString()]: a TypeError on [undefined] and [null]. *)
Definition toString (v : value) : option string :=
  match v with
  | VUndefined | VNull => None
  | VBool true => Some "true"
  | VBool false => Some "false"
  | VNum n => Some (pretty n)
  | VStr s => Some s
  end.

(** [o[k]]: a missing property reads as [undefined]. *)
Definition get (o : gmap string value) (k : string) : value :=
  default VUndefined (o !! k).

(** One entry of [tx.bills], one per cassette. The four counters are
    numbers. *)
Record bill := Bill {
  provisioned : Z;
  dispensed : Z;
  rejected : Z;
  denomination : Z
}.

(** A transaction object: its primitive-valued properties, and the [bills]
    array when the object has one. *)
Record tx := Tx {
  props : gmap string value;
  bills : option (list bill)
}.

(** [tx[k]] for a primitive-valued property. *)
Definition prop (t : tx) (k : string) : value := get (props t) k.

(** [_.set(k, v, tx)] of lodash/fp: a copy of [tx] with [k] set. *)
Definition set (k : string) (v : value) (t : tx) : tx :=
  {| props := <[k := v]> (props t); bills := bills t |}.

Definition setBills (bs : list bill) (t : tx) : tx :=
  {| props := props t; bills := Some bs |}.

(** The object [{}]. *)
Definition emptyObj : tx := {| props := ∅; bills := None |}.

(** [_.isEmpty] on an object: no own property. *)
Definition isEmpty (t : tx) : bool :=
  bool_decide (props t = ∅) && bool_decide (bills t = None).

(** What [_.includes(x, array)] is asked about: a primitive or a whole
    transaction object. *)
Inductive jsval :=
| JPrim (v : value)
| JTx (t : tx).

(** [_.includes(x, array)] of lodash/fp for an array of string literals:
    SameValueZero of [x] with some element. An object is never the same value
    as a string. *)
Definition includes (x : jsval) (array : list string) : bool :=
  match x with
  | JPrim v => bool_decide (Exists (λ s, v = VStr s) array)
  | JTx _ => false
  end.

(** [_.merge(dest, src)] on objects with primitive values: a source value
    that is [undefined] is skipped when the destination has the key. *)
Definition mergeValue (d s : option value) : option value :=
  match s with
  | None => d
  | Some VUndefined => Some (default VUndefined d)
  | Some v => Some v
  end.

Definition mergeObj (dest src : gmap string value) : gmap string value :=
  merge mergeValue dest src.

(** [_.merge(tx, changes)]: arrays are merged index by index, and every
    counter of a source entry is a number, so a source entry replaces the
    destination's entry of the same index. *)
Definition mergeTx (t changes : tx) : tx :=
  {| props := mergeObj (props t) (props changes);
     bills := match bills changes with
              | None => bills t
              | Some s => Some (s ++ drop (length s) (default [] (bills t)))
              end |}.

(** ** Errors and the monad of promise chains *)

Record error := Error {
  err_name : string;
  err_message : string;
  err_code : option Z
}.

(** [new Error(msg)]. *)
Definition newError (msg : string) : error :=
  {| err_name := "Error"; err_message := msg; err_code := None |}.

(** Reading a property of [undefined] or [null]. *)
Definition typeError : error :=
  {| err_name := "TypeError";
     err_message := "Cannot read property of undefined";
     err_code := None |}.

(** pg-promise's rejection when the number of rows is not the one asked for. *)
Definition queryResultError : error :=
  {| err_name := "QueryResultError";
     err_message := "Multiple rows were not expected.";
     err_code := None |}.

Inductive result (A : Type) :=
| Ok (a : A)
| Err (e : error).
Arguments Ok {A} a.
Arguments Err {A} e.

Record device := Device {
  device_id : string;
  cassette1 : Z;
  cassette2 : Z
}.

(** The tables the module touches, the [hd_indices_seq] sequence, and the
    transactions handed to the integration's [sell], oldest first. *)
Record world := World {
  cash_out_txs : list (gmap string value);
  cash_out_actions : list (gmap string value);
  devices : list device;
  hd_indices_seq : Z;
  sold : list tx
}.

(** A promise: it runs on the tables and resolves or rejects. *)
Definition io (A : Type) : Type := world → world * result A.

Definition ret {A} (a : A) : io A := λ w, (w, Ok a).

Definition throw {A} (e : error) : io A := λ w, (w, Err e).

Definition bind {A B} (m : io A) (k : A → io B) : io B :=
  λ w, match m w with
       | (w', Ok a) => k a w'
       | (w', Err e) => (w', Err e)
       end.

(** [promise.catch(handler)]. *)
Definition catch {A} (m : io A) (h : error → io A) : io A :=
  λ w, match m w with
       | (w', Ok a) => (w', Ok a)
       | (w', Err e) => h e w'
       end.

(** A value that is already a result: a synchronous throw inside a [then],
    or the outcome of an integration call. *)
Definition liftR {A} (r : result A) : io A := λ w, (w, r).

Notation "'let*' x := m 'in' k" := (bind m (λ x, k))
  (at level 10, x pattern, m at level 100, k at level 200).

(** ** Constants *)

Definition UPDATEABLE_FIELDS : list string :=
  ["txHash"; "status"; "dispense"; "notified"; "redeem"; "phone"; "error"; "swept"].

Definition INSUFFICIENT_FUNDS_CODE : Z := 570.

Definition httpError (msg : string) (code : Z) : error :=
  {| err_name := "HTTPError";
     err_message := msg;
     err_code := Some (if code =? 0 then 500 else code) |}.

(** ** The status ratchet *)

Definition statusOrder : list string :=
  ["notSeen"; "published"; "rejected"; "authorized"; "instant"; "confirmed"].

(** [array.indexOf(v)]: the first index holding [v], or [-1]. *)
Fixpoint indexOf (array : list string) (v : value) : Z :=
  match array with
  | [] => -1
  | s :: rest =>
      if strictEq (VStr s) v then 0
      else let i := indexOf rest v in if i <? 0 then -1 else i + 1
  end.

(** [array[i]]: [undefined] out of range. *)
Definition index (array : list string) (i : Z) : value :=
  if i <? 0 then VUndefined
  else match array !! Z.to_nat i with
       | Some s => VStr s
       | None => VUndefined
       end.

Definition ratchetStatus (oldStatus newStatus : value) : value :=
  if strictEq oldStatus newStatus then oldStatus
  else if strictEq newStatus (VStr "insufficientFunds") then newStatus
  else
    let idx := Z.max (indexOf statusOrder oldStatus) (indexOf statusOrder newStatus) in
    index statusOrder idx.

Definition updateStatus (oldTx newTx : tx) : tx :=
  set "status" (ratchetStatus (prop oldTx "status") (prop newTx "status")) newTx.

(** ** The audit log *)

(** [db.none] of an insert into [cash_out_actions]. *)
Definition insertAction (rec : gmap string value) : io unit :=
  λ w, ({| cash_out_txs := cash_out_txs w;
           cash_out_actions := cash_out_actions w ++ [rec];
           devices := devices w;
           hd_indices_seq := hd_indices_seq w;
           sold := sold w |}, Ok tt).

Definition logActionById (action : value) (_rec : gmap string value) (txId : value)
  : io unit :=
  let rec := <["redeem" := VBool false]> (<["tx_id" := txId]> (<["action" := action]> _rec)) in
  insertAction rec.

Definition logAction (action : value) (_rec : gmap string value) (t : tx) : io tx :=
  let rec := <["redeem" := VBool (truthy (prop t "redeem"))]>
               (<["tx_id" := prop t "id"]> (<["action" := action]> _rec)) in
  let* _ := insertAction rec in ret t.

Definition logError (action : value) (err : error) (t : tx) : io tx :=
  logAction action
    (<["error_code" := VStr (err_name err)]> {["error" := VStr (err_message err)]}) t.

Definition mapDispense (t : tx) : result (gmap string value) :=
  match bills t with
  | None | Some [] => Ok ∅
  | Some [_] => Err typeError
  | Some (b0 :: b1 :: _) =>
      Ok (<["denomination_2" := VNum (denomination b1)]>
         (<["denomination_1" := VNum (denomination b0)]>
         (<["rejected_2" := VNum (rejected b1)]>
         (<["rejected_1" := VNum (rejected b0)]>
         (<["dispensed_2" := VNum (dispensed b1)]>
         (<["dispensed_1" := VNum (dispensed b0)]>
         (<["provisioned_2" := VNum (provisioned b1)]>
         {["provisioned_1" := VNum (provisioned b0)]})))))))
  end.

Definition logDispense (t : tx) : io tx :=
  let baseRec : gmap string value :=
    <["error_code" := prop t "errorCode"]> {["error" := prop t "error"]} in
  let* mapped := liftR (mapDispense t) in
  let rec := mergeObj mapped baseRec in
  let action := if truthy (prop t "dispenseConfirmed") then "dispense" else "dispenseError" in
  logAction (VStr action) rec t.

(** ** Diff *)

(** The customizer: [true] when both are nil, [undefined] otherwise. *)
Definition nilEqual (a b : value) : option bool :=
  if isNil a && isNil b then Some true else None.

(** [_.isEqualWith(customizer, a, b)] on primitives: the customizer's answer
    when it gives one, equality of the two values otherwise. *)
Definition isEqualWith (customizer : value → value → option bool) (a b : value) : bool :=
  match customizer a b with
  | Some r => r
  | None => bool_decide (a = b)
  end.

(** One round of the [forEach] of [diff]. *)
Definition diffField (oldTx : option tx) (newTx : tx) (updatedTx : gmap string value)
    (fieldKey : string) : gmap string value :=
  match oldTx with
  | Some o =>
      if isEqualWith nilEqual (prop o fieldKey) (prop newTx fieldKey) then updatedTx
      else if isNil (prop newTx fieldKey) then updatedTx
      else <[fieldKey := prop newTx fieldKey]> updatedTx
  | None => <[fieldKey := prop newTx fieldKey]> updatedTx
  end.

Definition diff (oldTx : option tx) (newTx : tx) : tx :=
  {| props := foldl (diffField oldTx newTx) ∅ UPDATEABLE_FIELDS; bills := None |}.

(** ** Tables *)

Definition withTxs (rows : list (gmap string value)) (w : world) : world :=
  {| cash_out_txs := rows;
     cash_out_actions := cash_out_actions w;
     devices := devices w;
     hd_indices_seq := hd_indices_seq w;
     sold := sold w |}.

(** How pg-promise writes a value into a query: [undefined] as [null]. *)
Definition sqlValue (v : value) : value :=
  match v with
  | VUndefined => VNull
  | _ => v
  end.

(** [where id=$1]: nothing equals [null]. *)
Definition hasId (id : value) (row : gmap string value) : bool :=
  negb (isNil id) && bool_decide (row !! "id" = Some id).

(** [select * from cash_out_txs where id=$1]. *)
Definition selectById (id : value) : io (list (gmap string value)) :=
  λ w, (w, Ok (filter (λ row, hasId id row) (cash_out_txs w))).

(** [t.oneOrNone]: the row, [null] when there is none, a rejection when there
    are several. *)
Definition oneOrNone (rows : list (gmap string value))
  : result (option (gmap string value)) :=
  match rows with
  | [] => Ok None
  | [row] => Ok (Some row)
  | _ => Err queryResultError
  end.

(** [insert into cash_out_txs ... returning *]: the new row. Column defaults
    and constraints of the table are not part of the model. *)
Definition insertRow (dbTx : gmap string value) : io (gmap string value) :=
  λ w, let row := sqlValue <$> dbTx in
       (withTxs (cash_out_txs w ++ [row]) w, Ok row).

Definition setColumns (cols row : gmap string value) : gmap string value :=
  (sqlValue <$> cols) ∪ row.

(** [update cash_out_txs set ... where id=$1]: the number of rows it
    changed. *)
Definition updateRows (cols : gmap string value) (id : value) : io Z :=
  λ w, (withTxs ((λ row, if hasId id row then setColumns cols row else row)
                   <$> cash_out_txs w) w,
        Ok (Z.of_nat (length (filter (λ row, hasId id row) (cash_out_txs w))))).

(** [select nextval('hd_indices_seq')]. *)
Definition nextval : io Z :=
  λ w, ({| cash_out_txs := cash_out_txs w;
           cash_out_actions := cash_out_actions w;
           devices := devices w;
           hd_indices_seq := hd_indices_seq w + 1;
           sold := sold w |}, Ok (hd_indices_seq w + 1)).

(** [update devices set cassette1 = cassette1 - $1, cassette2 = cassette2 - $2
    where device_id = $3]. *)
Definition decrementCassettes (d1 d2 : Z) (deviceId : value) : io unit :=
  λ w, ({| cash_out_txs := cash_out_txs w;
           cash_out_actions := cash_out_actions w;
           devices := (λ d, if bool_decide (VStr (device_id d) = deviceId)
                            then {| device_id := device_id d;
                                    cassette1 := cassette1 d - d1;
                                    cassette2 := cassette2 d - d2 |}
                            else d) <$> devices w;
           hd_indices_seq := hd_indices_seq w;
           sold := sold w |}, Ok tt).

(** ** The integration *)

(** Modelled from the spec: a cassette of the device, by denomination and
    remaining count; the source only passes the array on. *)
Record cassette := Cassette {
  cas_denomination : Z;
  cas_count : Z
}.

(** The injected collaborator [pi]: each call resolves or rejects. [sell] is
    fire-and-forget; its calls are collected in [sold]. *)
Record integration := Integration {
  isHd : tx → result value;
  newAddress : tx → result value;
  buildCassettes : result (list cassette)
}.

(** [pi.sell(tx)]: the result is never read. *)
Definition sell (t : tx) : io unit :=
  λ w, ({| cash_out_txs := cash_out_txs w;
           cash_out_actions := cash_out_actions w;
           devices := devices w;
           hd_indices_seq := hd_indices_seq w;
           sold := sold w ++ [t] |}, Ok tt).

(** ** Insert, update, upsert *)

Section Store.

(** [_.snakeCase] of lodash. *)
Variable snakeCase : string → string.

(** [helper.toObj] on a row that is there (cash-out-helper is a module of its
    own): the row as a transaction object. *)
Variable toObjRow : gmap string value → tx.

(** [billMath.makeChange(cassettes, fiat)]: the bills, or [null] when the
    cassettes cannot make up the amount. *)
Variable makeChange : list cassette → value → option (list bill).

(** Modelled from the spec: [helper.toObj] leaves a missing row missing
    (the source tests [!oldTx] on its result). *)
Definition toObj (row : option (gmap string value)) : option tx :=
  toObjRow <$> row.

(** [_.mapKeys(f, obj)]; of two keys with the same image the later one of the
    traversal stays. *)
Definition mapKeys (f : string → string) (obj : gmap string value) : gmap string value :=
  foldl (λ acc kv, <[f kv.1 := kv.2]> acc) ∅ (map_to_list obj).

(** [mapValuesWithKey(convert, obj)] for a [convert] that can throw. *)
Definition mapValuesWithKey (convert : value → string → result value)
    (obj : gmap string value) : result (gmap string value) :=
  foldr (λ kv acc,
           match convert kv.2 kv.1, acc with
           | Ok v, Ok m => Ok (<[kv.1 := v]> m)
           | Err e, _ => Err e
           | _, Err e => Err e
           end) (Ok ∅) (map_to_list obj).

Definition convertBigNumFields (obj : gmap string value) : result (gmap string value) :=
  let convert := λ (v : value) (key : string),
    if includes (JPrim (VStr key)) ["cryptoAtoms"; "fiat"]
    then match toString v with
         | Some s => Ok (VStr s)
         | None => Err typeError
         end
    else Ok v in
  let convertKey := λ key : string,
    if includes (JPrim (VStr key)) ["cryptoAtoms"; "fiat"]
    then key +:+ "#"
    else key in
  match mapValuesWithKey convert obj with
  | Ok converted => Ok (mapKeys convertKey converted)
  | Err e => Err e
  end.

Definition convertField (key : string) : string := snakeCase key.

(** The [bills] array is no part of [props], so [_.omit] has only
    [direction] (and a stray primitive [bills]) to drop. *)
Definition toDb (t : tx) : result (gmap string value) :=
  match convertBigNumFields (props t) with
  | Ok obj => Ok (mapKeys convertField (delete "bills" (delete "direction" obj)))
  | Err e => Err e
  end.

Definition insert (t : tx) : io tx :=
  let* dbTx := liftR (toDb t) in
  let* row := insertRow dbTx in
  ret (toObjRow row).

Definition update (t changes : tx) : io tx :=
  if isEmpty changes then ret t
  else
    let* dbChanges := liftR (toDb t) in
    let newTx := mergeTx t changes in
    let* _ := updateRows dbChanges (prop t "id") in
    ret newTx.

Definition upsert (oldTx : option tx) (t : tx) : io (option tx * tx) :=
  match oldTx with
  | None =>
      let* newTx := insert t in
      ret (oldTx, newTx)
  | Some _ =>
      let* newTx := update t (diff oldTx t) in
      ret (oldTx, newTx)
  end.

Definition nextHd (isHd : value) (t : tx) : io tx :=
  if negb (truthy isHd) then ret t
  else
    let* hd_index := nextval in
    ret (set "hdIndex" (VNum hd_index) t).

(** The values are computed before the query is sent: reading [bills[0]] or
    [bills[1]] of a transaction without them throws. *)
Definition updateCassettes (t : tx) : io unit :=
  match bills t with
  | Some (b0 :: b1 :: _) =>
      decrementCassettes (dispensed b0 + rejected b0) (dispensed b1 + rejected b1)
        (prop t "deviceId")
  | _ => throw typeError
  end.

(** ** Pre- and post-processing *)

Definition wasJustAuthorized (oldTx newTx : tx) : bool :=
  (negb (strictEq (prop oldTx "status") (VStr "authorized"))
   && strictEq (prop newTx "status") (VStr "authorized"))
  || (includes (JTx oldTx) ["notSeen"; "published"; "authorized"]
      && includes (JTx newTx) ["instant"; "confirmed"]).

(** With a row, the branch after [updateStatus]; its inner test of [!oldTx]
    cannot hold there. [logDispense(...).then(updateCassettes(...))] calls
    [updateCassettes] at once and resolves to what [logDispense] resolves
    to. *)
Definition preProcess (oldTx : option tx) (newTx : tx) (pi : integration) : io tx :=
  match oldTx with
  | None =>
      catch
        (let* isHd := liftR (isHd pi newTx) in
         let* newTxHd := nextHd isHd newTx in
         let* address := liftR (newAddress pi newTxHd) in
         let addressedTx := set "toAddress" address newTxHd in
         let rec : gmap string value := {["to_address" := prop addressedTx "toAddress"]} in
         logAction (VStr "provisionAddress") rec addressedTx)
        (λ err,
           let* _ := logError (VStr "provisionAddress") err newTx in
           throw err)
  | Some oldTx =>
      let updatedTx := updateStatus oldTx newTx in
      if negb (strictEq (prop updatedTx "status") (prop oldTx "status")) then
        let* _ := (if wasJustAuthorized oldTx updatedTx then sell updatedTx else ret tt) in
        let rec : gmap string value :=
          <["tx_hash" := prop updatedTx "txHash"]>
            {["to_address" := prop updatedTx "toAddress"]} in
        logAction (prop updatedTx "status") rec updatedTx
      else if negb (truthy (prop oldTx "dispenseConfirmed"))
              && truthy (prop updatedTx "dispenseConfirmed") then
        let* logged := logDispense updatedTx in
        let* _ := updateCassettes updatedTx in
        ret logged
      else if negb (truthy (prop oldTx "phone")) && truthy (prop newTx "phone") then
        logAction (VStr "addPhone") ∅ updatedTx
      else if negb (truthy (prop oldTx "redeem")) && truthy (prop newTx "redeem") then
        logAction (VStr "redeemLater") ∅ updatedTx
      else ret updatedTx
  end.

(** [(newTx.dispense && !oldTx.dispense) || (newTx.redeem && !oldTx.redeem)]:
    reading a property of a missing [oldTx] throws. *)
Definition newlyRequested (oldTx : option tx) (newTx : tx) : result bool :=
  match oldTx with
  | Some o =>
      Ok ((truthy (prop newTx "dispense") && negb (truthy (prop o "dispense")))
          || (truthy (prop newTx "redeem") && negb (truthy (prop o "redeem"))))
  | None =>
      if truthy (prop newTx "dispense") then Err typeError
      else if truthy (prop newTx "redeem") then Err typeError
      else Ok false
  end.

Definition postProcess (txVector : option tx * tx) (pi : integration) : io tx :=
  let '(oldTx, newTx) := txVector in
  let* requested := liftR (newlyRequested oldTx newTx) in
  if requested then
    catch
      (let* cassettes := liftR (buildCassettes pi) in
       let* _ := sell newTx in
       let* t :=
         match makeChange cassettes (prop newTx "fiat") with
         | None => throw (httpError "Out of bills" INSUFFICIENT_FUNDS_CODE)
         | Some bills => ret (setBills bills newTx)
         end in
       let* rec :=
         match bills t with
         | Some (b0 :: b1 :: _) =>
             ret (<["denomination_2" := VNum (denomination b1)]>
                 (<["denomination_1" := VNum (denomination b0)]>
                 (<["provisioned_2" := VNum (provisioned b1)]>
                 ({["provisioned_1" := VNum (provisioned b0)]} : gmap string value))))
         | _ => throw typeError
         end in
       logAction (VStr "provisionNotes") rec t)
      (λ err,
         let* _ := logError (VStr "provisionNotesError") err newTx in
         throw err)
  else ret newTx.

(** The body of the serializable transaction. *)
Definition transaction (t : tx) (pi : integration) : io (option tx * tx) :=
  let* rows := selectById (prop t "id") in
  let* row := liftR (oneOrNone rows) in
  let oldTx := toObj row in
  let* preProcessedTx := preProcess oldTx t pi in
  upsert oldTx preProcessedTx.

Definition post (t : tx) (pi : integration) : io tx :=
  let* txVector := transaction t pi in
  let newTx := txVector.2 in
  let* changes := postProcess txVector pi in
  update newTx changes.

End Store.

(** ** Cancel *)

Definition cancel (txId : value) : io unit :=
  let updateRec : gmap string value :=
    <["dispense" := VBool true]>
      (<["error" := VStr "Operator cancel"]>
         {["dispense_time" := VStr "now()^"]}) in
  let* rowCount := updateRows updateRec txId in
  let* _ := (if bool_decide (rowCount = 1) then ret tt
             else throw (newError "No such tx-id")) in
  logActionById (VStr "operatorCompleted") ∅ txId.

(** ** The sweeps *)

(** What [plugins(settings, deviceId)] gives for the settings at hand: the
    integration handed to [post], and its [getStatus], which resolves to the
    status it reports. *)
Record plugin := Plugin {
  plugin_pi : integration;
  getStatus : tx → result value
}.

(** The age of a row in milliseconds at the time [now] of the query,
    [extract(epoch from (now() - created)) * 1000]; a row without a
    [created] time has none. Times are integers of milliseconds. *)
Definition ageOf (now : Z) (row : gmap string value) : option Z :=
  match row !! "created" with
  | Some (VNum created) => Some (now - created)
  | _ => None
  end.

(** The [where] clause of [fetchOpenTxs]. *)
Definition isOpenTx (now : Z) (statuses : list string) (age : Z)
    (row : gmap string value) : bool :=
  match ageOf now row with
  | Some a => bool_decide (a < age)
  | None => false
  end
  && includes (JPrim (get row "status")) statuses.

Section Monitor.

(** [T.week], [T.days] and [T.minutes] of the [time] module, in
    milliseconds. *)
Variables week days minutes : Z.

Variable snakeCase : string → string.
Variable toObjRow : gmap string value → tx.
Variable makeChange : list cassette → value → option (list bill).
Variable plugins : value → plugin.

Definition STALE_INCOMING_TX_AGE : Z := week.
Definition STALE_LIVE_INCOMING_TX_AGE : Z := 10 * minutes.
Definition MAX_NOTIFY_AGE : Z := 2 * days.
Definition MIN_NOTIFY_AGE : Z := 5 * minutes.

Definition fetchOpenTxs (now : Z) (statuses : list string) (age : Z) : io (list tx) :=
  λ w, (w, Ok (toObjRow <$> filter (λ row, isOpenTx now statuses age row)
                              (cash_out_txs w))).

Definition processTxStatus (t : tx) : io tx :=
  let pi := plugins (prop t "deviceId") in
  let* status := liftR (getStatus pi t) in
  post snakeCase toObjRow makeChange (set "status" status t) (plugin_pi pi).

(** The transactions [monitorLiveIncoming] fetches at [now]; it hands each
    one to [processTxStatus] and logs a failure instead of passing it on. *)
Definition liveIncomingTxs (now : Z) : io (list tx) :=
  fetchOpenTxs now ["notSeen"; "published"; "insufficientFunds"]
    STALE_LIVE_INCOMING_TX_AGE.

(** The transactions [monitorStaleIncoming] fetches at [now]. *)
Definition staleIncomingTxs (now : Z) : io (list tx) :=
  fetchOpenTxs now
    ["notSeen"; "published"; "authorized"; "instant"; "rejected"; "insufficientFunds"]
    STALE_INCOMING_TX_AGE.

(** The [where] clause of [monitorUnnotified]; a comparison with a null
    column selects nothing. *)
Definition isUnnotified (now : Z) (row : gmap string value) : bool :=
  match ageOf now row with
  | Some a =>
      bool_decide (a < MAX_NOTIFY_AGE)
      && bool_decide (row !! "notified" = Some (VBool false))
      && bool_decide (row !! "dispense" = Some (VBool false))
      && negb (isNil (get row "phone"))
      && includes (JPrim (get row "status")) ["instant"; "confirmed"]
      && (bool_decide (row !! "redeem" = Some (VBool true))
          || bool_decide (MIN_NOTIFY_AGE < a))
  | None => false
  end.

(** The transactions [monitorUnnotified] notifies at [now]. *)
Definition unnotifiedTxs (now : Z) : io (list tx) :=
  λ w, (w, Ok (toObjRow <$> filter (λ row, isUnnotified now row) (cash_out_txs w))).

End Monitor.

(** ** The statuses and the transition the spec calls "just authorized" *)

(** The six statuses of [statusOrder] and the override. *)
Definition validStatuses : list value :=
  VStr <$> (statusOrder ++ ["insufficientFunds"]).

(** The spec's "just authorized" transition, on the two statuses: into
    [authorized] from another status, or from one of notSeen, published,
    authorized into one of instant, confirmed. *)
Definition justAuthorizedSpec (oldStatus newStatus : value) : bool :=
  (negb (strictEq oldStatus (VStr "authorized")) && strictEq newStatus (VStr "authorized"))
  || (includes (JPrim oldStatus) ["notSeen"; "published"; "authorized"]
      && includes (JPrim newStatus) ["instant"; "confirmed"]).

(** ** Sample records *)

Definition obj (l : list (string * value)) : gmap string value := list_to_map l.

(** lodash's [snakeCase] on the property names the samples use. *)
Definition sampleSnakeCase (key : string) : string :=
  if bool_decide (key = "fiat#") then "fiat"
  else if bool_decide (key = "txHash") then "tx_hash"
  else if bool_decide (key = "deviceId") then "device_id"
  else if bool_decide (key = "dispenseConfirmed") then "dispense_confirmed"
  else key.

(** A [toObj] for rows whose column names are single words. *)
Definition sampleToObj (row : gmap string value) : tx := Tx row None.

(** A [makeChange] that finds no combination. *)
Definition noChange (cassettes : list cassette) (fiat : value) : option (list bill) :=
  None.

Definition sampleIntegration : integration :=
  {| isHd := λ _, Ok (VBool false);
     newAddress := λ _, Ok (VStr "1BoatSLRHtKNngkdXEeobR76b53LETtpyT");
     buildCassettes := Ok [Cassette 20 5; Cassette 50 5] |}.

(** A stored transaction in status published, with a phone on file. *)
Definition publishedRow : gmap string value :=
  obj [("id", VStr "t1"); ("status", VStr "published"); ("phone", VStr "555")].

Definition publishedTx : tx := Tx publishedRow None.

Definition storedPublished : world := World [publishedRow] [] [] 0 [].

(** The update that reports it confirmed. *)
Definition confirmedTx : tx :=
  Tx (obj [("id", VStr "t1"); ("status", VStr "confirmed"); ("phone", VStr "555")]) None.

(** The same update carrying [null] for the phone. *)
Definition confirmedNoPhone : tx :=
  Tx (obj [("id", VStr "t1"); ("status", VStr "confirmed"); ("phone", VNull)]) None.

(** A record with another phone, and a patch of its status alone. *)
Definition confirmedOtherPhone : tx :=
  Tx (obj [("id", VStr "t1"); ("status", VStr "confirmed"); ("phone", VStr "777")]) None.

Definition statusPatch : tx := Tx (obj [("status", VStr "confirmed")]) None.

(** A confirmed transaction before the device reports the dispense, and the
    report of a dispense that ended in an error. *)
Definition undispensedTx : tx :=
  Tx (obj [("id", VStr "t1"); ("status", VStr "confirmed"); ("deviceId", VStr "d1");
           ("dispense", VBool true); ("dispenseConfirmed", VBool false)]) None.

Definition dispensedWithError : tx :=
  Tx (obj [("id", VStr "t1"); ("status", VStr "confirmed"); ("deviceId", VStr "d1");
           ("dispense", VBool true); ("dispenseConfirmed", VBool true);
           ("error", VStr "Cassette jam")])
     (Some [Bill 1 1 0 20; Bill 1 0 1 50]).

Definition oneDevice : world := World [] [] [Device "d1" 5 5] 0 [].

(** The audit entry the report leaves. *)
Definition dispenseEntry : gmap string value :=
  obj [("action", VStr "dispense"); ("tx_id", VStr "t1"); ("redeem", VBool false);
       ("error", VStr "Cassette jam"); ("error_code", VUndefined);
       ("provisioned_1", VNum 1); ("provisioned_2", VNum 1);
       ("dispensed_1", VNum 1); ("dispensed_2", VNum 0);
       ("rejected_1", VNum 0); ("rejected_2", VNum 1);
       ("denomination_1", VNum 20); ("denomination_2", VNum 50)].

(** A stored transaction not yet asked to dispense, and the request. *)
Definition idleRow : gmap string value :=
  obj [("id", VStr "t1"); ("status", VStr "confirmed"); ("fiat", VStr "70");
       ("dispense", VBool false)].

Definition storedIdle : world := World [idleRow] [] [] 0 [].

Definition dispenseRequest : tx :=
  Tx (obj [("id", VStr "t1"); ("status", VStr "confirmed"); ("fiat", VNum 70);
           ("dispense", VBool true)]) None.

(** The audit entry of a cancel. *)
Definition operatorCompleted (txId : value) : gmap string value :=
  <["redeem" := VBool false]>
    (<["tx_id" := txId]> {["action" := VStr "operatorCompleted"]}).

(** The audit entry of a failed note provisioning. *)
Definition provisionNotesError (err : error) (t : tx) : gmap string value :=
  <["redeem" := VBool (truthy (prop t "redeem"))]>
    (<["tx_id" := prop t "id"]>
       (<["action" := VStr "provisionNotesError"]>
          (<["error_code" := VStr (err_name err)]>
             {["error" := VStr (err_message err)]}))).

(** ** Notions the properties are stated with *)

(** Whether [diff] takes a field of an existing row into the patch. *)
Definition changed (o n : tx) (k : string) : bool :=
  negb (isEqualWith nilEqual (prop o k) (prop n k)) && negb (isNil (prop n k)).

(** The number of rows [where id=$1] selects. *)
Definition rowCount (txId : value) (w : world) : nat :=
  length (filter (λ row, hasId txId row) (cash_out_txs w)).

(** The audit entry of a change of status. *)
Definition statusEntry (t : tx) : gmap string value :=
  <["redeem" := VBool (truthy (prop t "redeem"))]>
    (<["tx_id" := prop t "id"]>
       (<["action" := prop t "status"]>
          (<["tx_hash" := prop t "txHash"]>
             {["to_address" := prop t "toAddress"]}))).

(** The audit entry of a provisioned address. *)
Definition provisionAddressEntry (t : tx) : gmap string value :=
  <["redeem" := VBool (truthy (prop t "redeem"))]>
    (<["tx_id" := prop t "id"]>
       (<["action" := VStr "provisionAddress"]>
          {["to_address" := prop t "toAddress"]})).

(** The audit entry of an error, under the given action name. *)
Definition errorEntry (action : string) (err : error) (t : tx) : gmap string value :=
  <["redeem" := VBool (truthy (prop t "redeem"))]>
    (<["tx_id" := prop t "id"]>
       (<["action" := VStr action]>
          (<["error_code" := VStr (err_name err)]>
             {["error" := VStr (err_message err)]}))).

(** A transaction whose status moves on while the device reports the
    dispense, and the device it belongs to. *)
Definition instantUndispensed : tx :=
  Tx (obj [("id", VStr "t1"); ("status", VStr "instant"); ("deviceId", VStr "d1");
           ("dispense", VBool true); ("dispenseConfirmed", VBool false)]) None.

Definition confirmedDispensed : tx :=
  Tx (obj [("id", VStr "t1"); ("status", VStr "confirmed"); ("deviceId", VStr "d1");
           ("dispense", VBool true); ("dispenseConfirmed", VBool true)])
     (Some [Bill 1 1 0 20; Bill 1 0 1 50]).

(** The same report without the bills. *)
Definition dispensedNoBills : tx :=
  Tx (obj [("id", VStr "t1"); ("status", VStr "confirmed"); ("deviceId", VStr "d1");
           ("dispense", VBool true); ("dispenseConfirmed", VBool true)]) None.

(** A transaction seen for the first time. *)
Definition freshTx : tx :=
  Tx (obj [("id", VStr "t1"); ("status", VStr "notSeen"); ("fiat", VNum 20)]) None.

(** An integration of a device with deterministic addresses, and one whose
    wallet is down. *)
Definition hdIntegration : integration :=
  {| isHd := λ _, Ok (VBool true);
     newAddress := λ _, Ok (VStr "1BoatSLRHtKNngkdXEeobR76b53LETtpyT");
     buildCassettes := Ok [Cassette 20 5; Cassette 50 5] |}.

Definition walletDown : error :=
  {| err_name := "Error"; err_message := "Wallet unreachable"; err_code := None |}.

Definition downIntegration : integration :=
  {| isHd := λ _, Ok (VBool true);
     newAddress := λ _, Err walletDown;
     buildCassettes := Err walletDown |}.

Definition emptyWorld : world := World [] [] [] 0 [].

(** The audit entry of provisioned notes. *)
Definition provisionNotesEntry (b0 b1 : bill) (t : tx) : gmap string value :=
  <["redeem" := VBool (truthy (prop t "redeem"))]>
    (<["tx_id" := prop t "id"]>
       (<["action" := VStr "provisionNotes"]>
          (<["denomination_2" := VNum (denomination b1)]>
             (<["denomination_1" := VNum (denomination b0)]>
                (<["provisioned_2" := VNum (provisioned b1)]>
                   {["provisioned_1" := VNum (provisioned b0)]}))))).

(** A [makeChange] that pays 70 with one note of each cassette. *)
Definition oneOfEach (cassettes : list cassette) (fiat : value) : option (list bill) :=
  Some [Bill 1 0 0 20; Bill 1 0 0 50].

(** A stored transaction that was already asked to dispense. *)
Definition requestedRow : gmap string value :=
  obj [("id", VStr "t1"); ("status", VStr "confirmed"); ("fiat", VStr "70");
       ("dispense", VBool true)].

(** Whether the record has [cryptoAtoms] or [fiat] set to null or
    undefined. *)
Definition nilAmount (t : tx) : bool :=
  existsb (λ k, match props t !! k with
                | Some v => isNil v
                | None => false
                end) ["cryptoAtoms"; "fiat"].

(** A record whose amount is null. *)
Definition noAmountTx : tx :=
  Tx (obj [("id", VStr "t1"); ("status", VStr "confirmed"); ("fiat", VNull)]) None.

(** The published transaction reported as not seen. *)
Definition notSeenAgain : tx :=
  Tx (obj [("id", VStr "t1"); ("status", VStr "notSeen"); ("phone", VStr "555")]) None.

(** The columns [cancel] sets. *)
Definition cancelColumns : list string := ["dispense"; "error"; "dispense_time"].

(** A second stored transaction, beside the published one. *)
Definition otherRow : gmap string value :=
  obj [("id", VStr "t2"); ("status", VStr "instant"); ("phone", VStr "777")].

Definition storedTwo : world := World [publishedRow; otherRow] [] [] 0 [].

(** The column a property is written to, and the value written there: the
    two amounts go through [toString] and a key ending in [#]. *)
Definition isAmountKey (k : string) : bool :=
  includes (JPrim (VStr k)) ["cryptoAtoms"; "fiat"].

Definition columnOf (snakeCase : string → string) (k : string) : string :=
  snakeCase (if isAmountKey k then k +:+ "#" else k).

Definition columnValue (k : string) (v : value) : value :=
  if isAmountKey k
  then match toString v with
       | Some s => VStr s
       | None => v
       end
  else v.

(** Durations in milliseconds, a transaction created at second 1, and a
    plugin whose integration still reports it as not seen. *)
Definition sampleMinutes : Z := 60000.
Definition sampleDays : Z := 86400000.
Definition sampleWeek : Z := 604800000.

Definition recentRow : gmap string value :=
  obj [("id", VStr "t1"); ("status", VStr "published"); ("phone", VStr "555");
       ("created", VNum 1000)].

Definition recentWorld : world := World [recentRow] [] [] 0 [].

Definition samplePlugins (deviceId : value) : plugin :=
  {| plugin_pi := sampleIntegration; getStatus := λ _, Ok (VStr "notSeen") |}.

(** A transaction paid in an hour ago, with a phone and nobody told. *)
Definition unnotifiedRow : gmap string value :=
  obj [("id", VStr "t3"); ("status", VStr "confirmed"); ("phone", VStr "555");
       ("notified", VBool false); ("dispense", VBool false);
       ("created", VNum 1000)].

(** Closing steps for goals that count appended audit entries. *)
Ltac one_entry := eexists; split; [reflexivity | cbn; lia].
Ltac no_entry := exists []; split; [by rewrite app_nil_r | cbn; lia].

(** * Properties *)

(** ** The status ratchet *)

Lemma validStatuses_cases (P : value → Prop) :
  P (VStr "notSeen") → P (VStr "published") → P (VStr "rejected") →
  P (VStr "authorized") → P (VStr "instant") → P (VStr "confirmed") →
  P (VStr "insufficientFunds") →
  ∀ s, s ∈ validStatuses → P s.
Proof.
  intros H1 H2 H3 H4 H5 H6 H7 s Hs.
  unfold validStatuses in Hs. cbn in Hs.
  repeat (apply elem_of_cons in Hs as [-> | Hs]; [assumption |]).
  by apply elem_of_nil in Hs.
Qed.

Lemma ratchetStatus_same (s : value) : ratchetStatus s s = s.
Proof. unfold ratchetStatus, strictEq. by rewrite bool_decide_eq_true_2. Qed.

(** C2: on the six ordered statuses and insufficientFunds, the ratchet
    returns insufficientFunds whenever the new status is insufficientFunds;
    otherwise the index of its result in [statusOrder] is never below the
    index of the old status (insufficientFunds, which is not in the order,
    has index -1); and equal statuses are returned unchanged. *)
Theorem ratchetStatus_monotonic (oldStatus newStatus : value) :
  oldStatus ∈ validStatuses →
  newStatus ∈ validStatuses →
  (newStatus = VStr "insufficientFunds" →
     ratchetStatus oldStatus newStatus = VStr "insufficientFunds")
  ∧ (newStatus ≠ VStr "insufficientFunds" →
       indexOf statusOrder oldStatus
       ≤ indexOf statusOrder (ratchetStatus oldStatus newStatus))
  ∧ (oldStatus = newStatus → ratchetStatus oldStatus newStatus = oldStatus).
Proof.
  intros Hold Hnew. split; [| split].
  - intros ->. unfold ratchetStatus.
    destruct (strictEq oldStatus (VStr "insufficientFunds")) eqn:E.
    + by apply bool_decide_eq_true_1 in E.
    + done.
  - revert newStatus Hnew. revert oldStatus Hold.
    apply (validStatuses_cases (λ o, ∀ n, n ∈ validStatuses → n ≠ _ → _ ≤ _));
      apply (validStatuses_cases (λ n, n ≠ _ → _ ≤ _));
      intros Hne; vm_compute; congruence.
  - intros ->. apply ratchetStatus_same.
Qed.

(** C10: from insufficientFunds, every status of the order is taken over as
    it comes, because insufficientFunds has no index in [statusOrder]; the
    updated record then carries the incoming status and has left
    insufficientFunds. *)
Theorem insufficientFunds_not_sticky (newStatus : value) (oldTx newTx : tx) :
  newStatus ∈ (VStr <$> statusOrder) →
  indexOf statusOrder (VStr "insufficientFunds") = -1
  ∧ ratchetStatus (VStr "insufficientFunds") newStatus = newStatus
  ∧ (prop oldTx "status" = VStr "insufficientFunds" →
     prop newTx "status" = newStatus →
     prop (updateStatus oldTx newTx) "status" = newStatus
     ∧ prop (updateStatus oldTx newTx) "status" ≠ VStr "insufficientFunds").
Proof.
  intros Hnew.
  assert (Hr : ratchetStatus (VStr "insufficientFunds") newStatus = newStatus
               ∧ newStatus ≠ VStr "insufficientFunds").
  { cbn in Hnew.
    repeat (apply elem_of_cons in Hnew as [-> | Hnew]; [by vm_compute |]).
    by apply elem_of_nil in Hnew. }
  destruct Hr as [Hr Hne].
  split; [done |]. split; [done |].
  intros Ho Hn. unfold updateStatus, prop, set, get. cbn.
  rewrite lookup_insert_eq. cbn.
  unfold prop, get in Ho, Hn. rewrite Ho, Hn, Hr. done.
Qed.

(** Scenario B: a published transaction reported as notSeen stays
    published. *)
Lemma ratchetStatus_published_stays :
  indexOf statusOrder (VStr "published")
  ≤ indexOf statusOrder (ratchetStatus (VStr "published") (VStr "notSeen"))
  ∧ ratchetStatus (VStr "published") (VStr "notSeen") = VStr "published".
Proof.
  split; [| reflexivity].
  apply (ratchetStatus_monotonic (VStr "published") (VStr "notSeen")).
  - cbn. rewrite !elem_of_cons. intuition.
  - cbn. rewrite !elem_of_cons. intuition.
  - discriminate.
Defined.

(** A transaction out of funds that is seen confirmed becomes confirmed. *)
Lemma insufficientFunds_then_confirmed :
  ratchetStatus (VStr "insufficientFunds") (VStr "confirmed") = VStr "confirmed".
Proof.
  apply (insufficientFunds_not_sticky (VStr "confirmed") emptyObj emptyObj).
  cbn. rewrite !elem_of_cons. intuition.
Defined.

(** ** Diff *)

Lemma isEqualWith_nilEqual_true (a b : value) :
  isEqualWith nilEqual a b = true ↔ a = b ∨ (isNil a = true ∧ isNil b = true).
Proof.
  unfold isEqualWith, nilEqual.
  destruct (isNil a) eqn:Ea, (isNil b) eqn:Eb; cbn;
    rewrite ?bool_decide_eq_true; intuition congruence.
Qed.

Lemma isEqualWith_nilEqual_refl (a : value) : isEqualWith nilEqual a a = true.
Proof. apply isEqualWith_nilEqual_true. by left. Qed.

Lemma foldl_diffField_lookup (o n : tx) (fields : list string)
    (acc : gmap string value) (k : string) :
  foldl (diffField (Some o) n) acc fields !! k =
    if bool_decide (k ∈ fields) && changed o n k then Some (prop n k) else acc !! k.
Proof.
  revert acc. induction fields as [| f fields IH]; intros acc; cbn.
  - done.
  - rewrite IH. unfold diffField, changed.
    destruct (decide (k = f)) as [-> | Hne].
    + rewrite (bool_decide_eq_true_2 (f ∈ f :: fields)) by (apply elem_of_cons; by left).
      destruct (bool_decide (f ∈ fields));
        destruct (isEqualWith nilEqual (prop o f) (prop n f));
        destruct (isNil (prop n f)); cbn; try done;
        by rewrite lookup_insert_eq.
    + assert (bool_decide (k ∈ f :: fields) = bool_decide (k ∈ fields)) as ->.
      { apply bool_decide_ext. rewrite elem_of_cons. intuition congruence. }
      destruct (bool_decide (k ∈ fields) && _); [done |].
      destruct (isEqualWith nilEqual (prop o f) (prop n f)); [done |].
      destruct (isNil (prop n f)); [done |].
      by rewrite lookup_insert_ne.
Qed.

Lemma diff_lookup (o n : tx) (k : string) :
  props (diff (Some o) n) !! k =
    if bool_decide (k ∈ UPDATEABLE_FIELDS) && changed o n k
    then Some (prop n k) else None.
Proof. unfold diff. cbn [props]. by rewrite foldl_diffField_lookup, lookup_empty. Qed.

(** For an existing row, a field is in the patch exactly when it is
    updateable, the new value differs from the old one (two nil values do not
    differ) and the new value is not nil; the patch then carries the new
    value. *)
Lemma diff_includes_iff (o n : tx) (k : string) :
  is_Some (props (diff (Some o) n) !! k)
  ↔ k ∈ UPDATEABLE_FIELDS
    ∧ ¬ (prop o k = prop n k ∨ (isNil (prop o k) = true ∧ isNil (prop n k) = true))
    ∧ isNil (prop n k) = false.
Proof.
  rewrite diff_lookup, <- isEqualWith_nilEqual_true. unfold changed.
  destruct (bool_decide_reflect (k ∈ UPDATEABLE_FIELDS));
    destruct (isEqualWith nilEqual (prop o k) (prop n k));
    destruct (isNil (prop n k)); cbn;
    rewrite is_Some_alt; intuition congruence.
Qed.

(** The patch of an existing row never carries a nil value. *)
Lemma diff_never_nil (o n : tx) (k : string) (v : value) :
  props (diff (Some o) n) !! k = Some v → v = prop n k ∧ isNil v = false.
Proof.
  rewrite diff_lookup. unfold changed.
  destruct (bool_decide (k ∈ UPDATEABLE_FIELDS) && _) eqn:E; [| done].
  intros [= <-]. split; [done |].
  apply andb_prop in E as [_ E]. apply andb_prop in E as [_ E].
  by apply negb_true_iff in E.
Qed.

Lemma diff_unchanged (o n : tx) :
  (∀ k, prop n k = prop o k) → diff (Some o) n = emptyObj.
Proof.
  intros Hsame. unfold emptyObj.
  assert (props (diff (Some o) n) = ∅) as Hp.
  { apply map_eq. intros k. rewrite diff_lookup, lookup_empty.
    unfold changed. rewrite Hsame, isEqualWith_nilEqual_refl. cbn.
    by rewrite andb_false_r. }
  unfold diff in *. cbn [props] in Hp. by rewrite Hp.
Qed.

(** ** Pre-processing *)

(** The second disjunct asks whether the record itself is one of the status
    names: it never is, and the predicate is its first disjunct. *)
Lemma wasJustAuthorized_first_disjunct (oldTx newTx : tx) :
  wasJustAuthorized oldTx newTx =
    negb (strictEq (prop oldTx "status") (VStr "authorized"))
    && strictEq (prop newTx "status") (VStr "authorized").
Proof. unfold wasJustAuthorized. cbn [includes andb]. apply orb_false_r. Qed.

(** On a change of status, [sell] is called exactly when the status moves
    into authorized. *)
Lemma preProcess_status_change_sold (oldTx newTx : tx) (pi : integration) (w : world) :
  strictEq (prop (updateStatus oldTx newTx) "status") (prop oldTx "status") = false →
  sold (preProcess (Some oldTx) newTx pi w).1 =
    if negb (strictEq (prop oldTx "status") (VStr "authorized"))
       && strictEq (prop (updateStatus oldTx newTx) "status") (VStr "authorized")
    then sold w ++ [updateStatus oldTx newTx]
    else sold w.
Proof.
  intros Hne. unfold preProcess. rewrite Hne. cbn [negb].
  rewrite wasJustAuthorized_first_disjunct.
  by destruct (negb _ && _).
Qed.

(** C1 (the code departs from the claim): a published transaction is seen
    confirmed. The status changes and the transition is "just authorized" in
    the spec's sense, but the code's predicate is false and [sell] is not
    called; the entry named after the new status is logged. *)
Theorem preProcess_confirmed_not_sold (pi : integration) (w : world) :
  prop (updateStatus publishedTx confirmedTx) "status" = VStr "confirmed"
  ∧ justAuthorizedSpec (prop publishedTx "status")
      (prop (updateStatus publishedTx confirmedTx) "status") = true
  ∧ wasJustAuthorized publishedTx (updateStatus publishedTx confirmedTx) = false
  ∧ sold (preProcess (Some publishedTx) confirmedTx pi w).1 = sold w
  ∧ (preProcess (Some publishedTx) confirmedTx pi w).2 = Ok confirmedTx.
Proof.
  split; [by vm_compute |]. split; [by vm_compute |]. split; [by vm_compute |].
  split.
  - by rewrite preProcess_status_change_sold by (by vm_compute).
  - by vm_compute.
Qed.

(** C7 (the code departs from the claim): the device reports the dispense of
    a confirmed transaction together with an error. One entry is appended,
    with the counts of both cassettes and the error, and the cassettes of the
    device go down by dispensed + rejected; but the entry is named dispense,
    since the name follows [dispenseConfirmed], which is set on this path. *)
Theorem preProcess_dispense_error_named_dispense (pi : integration) :
  truthy (prop dispensedWithError "error") = true
  ∧ preProcess (Some undispensedTx) dispensedWithError pi oneDevice
    = (World [] [dispenseEntry] [Device "d1" 4 4] 0 [], Ok dispensedWithError)
  ∧ get dispenseEntry "action" = VStr "dispense".
Proof. vm_compute. done. Qed.

(** Whatever the error, a record with [dispenseConfirmed] set is logged as
    dispense. *)
Lemma logDispense_action (t : tx) (mapped : gmap string value) (w : world) :
  truthy (prop t "dispenseConfirmed") = true →
  mapDispense t = Ok mapped →
  ∃ rec, cash_out_actions (logDispense t w).1 = cash_out_actions w ++ [rec]
         ∧ get rec "action" = VStr "dispense".
Proof.
  intros Hc Hm. unfold logDispense, bind, liftR. rewrite Hm, Hc.
  eexists. split; [reflexivity |]. unfold get.
  by rewrite lookup_insert_ne, lookup_insert_ne, lookup_insert_eq.
Qed.

(** ** Update *)

Section StoreProperties.

Variable snakeCase : string → string.
Variable toObjRow : gmap string value → tx.
Variable makeChange : list cassette → value → option (list bill).

(** C5: an update with the empty patch leaves every table as it is and
    returns the record it was given; so does an update with the patch of a
    record against itself, which is empty. *)
Theorem update_empty_noop (t : tx) (w : world) :
  update snakeCase t emptyObj w = (w, Ok t)
  ∧ diff (Some t) t = emptyObj
  ∧ update snakeCase t (diff (Some t) t) w = (w, Ok t).
Proof.
  assert (diff (Some t) t = emptyObj) as Hd by (by apply diff_unchanged).
  rewrite Hd. done.
Qed.

Lemma update_actions (t changes : tx) (w : world) :
  cash_out_actions (update snakeCase t changes w).1 = cash_out_actions w.
Proof.
  unfold update. destruct (isEmpty changes); [done |].
  unfold bind, liftR. by destruct (toDb snakeCase t).
Qed.

(** What a non-empty update writes does not depend on the patch. *)
Lemma update_write_ignores_patch (t c1 c2 : tx) (w : world) :
  isEmpty c1 = false → isEmpty c2 = false →
  (update snakeCase t c1 w).1 = (update snakeCase t c2 w).1.
Proof.
  intros H1 H2. unfold update. rewrite H1, H2.
  unfold bind, liftR. by destruct (toDb snakeCase t).
Qed.

(** A non-empty update that goes through returns the record merged with
    the patch. *)
Lemma update_returns_merged (t changes : tx) (dbChanges : gmap string value)
    (w : world) :
  isEmpty changes = false → toDb snakeCase t = Ok dbChanges →
  (update snakeCase t changes w).2 = Ok (mergeTx t changes).
Proof.
  intros Hc Hd. unfold update. rewrite Hc. unfold bind, liftR. by rewrite Hd.
Qed.

(** ** Post *)

Lemma updateStatus_same_props (oldTx t : tx) :
  (∀ k, prop t k = prop oldTx k) →
  ∀ k, prop (updateStatus oldTx t) k = prop oldTx k.
Proof.
  intros Hsame k. unfold updateStatus, set, prop, get. cbn [props].
  destruct (decide (k = "status")) as [-> | Hne].
  - rewrite lookup_insert_eq. cbn. fold (get (props t) "status").
    fold (prop t "status"). rewrite Hsame. apply ratchetStatus_same.
  - rewrite lookup_insert_ne by done. apply Hsame.
Qed.

Lemma strictEq_refl (v : value) : strictEq v v = true.
Proof. unfold strictEq. by apply bool_decide_eq_true_2. Qed.

Lemma preProcess_identical (oldTx t : tx) (pi : integration) (w : world) :
  (∀ k, prop t k = prop oldTx k) →
  preProcess (Some oldTx) t pi w = (w, Ok (updateStatus oldTx t)).
Proof.
  intros Hsame. pose proof (updateStatus_same_props oldTx t Hsame) as Hupd.
  unfold preProcess. rewrite !Hupd, !Hsame, strictEq_refl. cbn [negb].
  destruct (truthy (prop oldTx "dispenseConfirmed")),
    (truthy (prop oldTx "phone")), (truthy (prop oldTx "redeem")); done.
Qed.

(** C9: when the stored row reads back as a record with the same field
    values as the one posted, the patch computed by the call is empty, the
    transaction changes no table, and the whole call appends no audit
    entry. *)
Theorem post_identical_no_diff_no_audit (t oldTx : tx) (row : gmap string value)
    (pi : integration) (w : world) :
  filter (λ r, hasId (prop t "id") r) (cash_out_txs w) = [row] →
  toObjRow row = oldTx →
  (∀ k, prop t k = prop oldTx k) →
  diff (Some oldTx) (updateStatus oldTx t) = emptyObj
  ∧ transaction snakeCase toObjRow t pi w = (w, Ok (Some oldTx, updateStatus oldTx t))
  ∧ cash_out_actions (post snakeCase toObjRow makeChange t pi w).1
    = cash_out_actions w.
Proof.
  intros Hrow Hobj Hsame.
  pose proof (updateStatus_same_props oldTx t Hsame) as Hupd.
  assert (diff (Some oldTx) (updateStatus oldTx t) = emptyObj) as Hdiff
    by (by apply diff_unchanged).
  assert (transaction snakeCase toObjRow t pi w
          = (w, Ok (Some oldTx, updateStatus oldTx t))) as Htx.
  { unfold transaction, bind, selectById, liftR. rewrite Hrow. cbn [oneOrNone toObj fmap option_fmap option_map].
    rewrite Hobj, preProcess_identical by done.
    unfold upsert, bind. by rewrite Hdiff. }
  split; [done |]. split; [done |].
  unfold post, bind. rewrite Htx. cbn [snd].
  unfold postProcess, bind, liftR, newlyRequested. rewrite !Hupd.
  destruct (truthy (prop oldTx "dispense")), (truthy (prop oldTx "redeem"));
    cbn [andb orb negb]; unfold ret;
    match goal with
    | |- context [update ?sc ?a ?b ?c] =>
        pose proof (update_actions a b c) as Hact;
        destruct (update sc a b c) as [w2 [r | e]]; exact Hact
    end.
Qed.

(** C6: when the transaction left the old row and the new record, dispensing
    or redemption is newly requested, the cassettes are read, and
    [makeChange] finds no combination for the fiat amount, then post fails
    with the HTTP error of code 570; the audit log gains exactly the
    provisionNotesError entry on top of what the transaction wrote; no row is
    written after the transaction, so no bills are attached to any record. *)
Theorem post_out_of_bills (t oldTx newTx : tx) (pi : integration)
    (cassettes : list cassette) (w w1 : world) :
  transaction snakeCase toObjRow t pi w = (w1, Ok (Some oldTx, newTx)) →
  (truthy (prop newTx "dispense") = true ∧ truthy (prop oldTx "dispense") = false)
  ∨ (truthy (prop newTx "redeem") = true ∧ truthy (prop oldTx "redeem") = false) →
  buildCassettes pi = Ok cassettes →
  makeChange cassettes (prop newTx "fiat") = None →
  (post snakeCase toObjRow makeChange t pi w).2
  = Err (httpError "Out of bills" INSUFFICIENT_FUNDS_CODE)
  ∧ err_code (httpError "Out of bills" INSUFFICIENT_FUNDS_CODE) = Some 570
  ∧ cash_out_actions (post snakeCase toObjRow makeChange t pi w).1
    = cash_out_actions w1
      ++ [provisionNotesError (httpError "Out of bills" INSUFFICIENT_FUNDS_CODE) newTx]
  ∧ cash_out_txs (post snakeCase toObjRow makeChange t pi w).1 = cash_out_txs w1
  ∧ sold (post snakeCase toObjRow makeChange t pi w).1 = sold w1 ++ [newTx].
Proof.
  intros Htx Hreq Hcas Hchange.
  assert (newlyRequested (Some oldTx) newTx = Ok true) as Hnew.
  { unfold newlyRequested. f_equal.
    destruct Hreq as [[-> ->] | [-> ->]]; cbn; [done | apply orb_true_r]. }
  unfold post, bind. rewrite Htx. cbn [snd].
  unfold postProcess, bind, liftR, catch. rewrite Hnew, Hcas. cbn.
  rewrite Hchange. cbn. done.
Qed.

End StoreProperties.

(** The stored row posted again as it is. *)
Lemma post_identical_sample :
  cash_out_actions
    (post sampleSnakeCase sampleToObj noChange publishedTx sampleIntegration
       storedPublished).1 = [].
Proof.
  apply (post_identical_no_diff_no_audit sampleSnakeCase sampleToObj noChange
           publishedTx publishedTx publishedRow sampleIntegration storedPublished).
  - by vm_compute.
  - reflexivity.
  - reflexivity.
Defined.

(** A dispense is requested for 70 and no combination of bills makes it. *)
Lemma post_out_of_bills_sample :
  (post sampleSnakeCase sampleToObj noChange dispenseRequest sampleIntegration
     storedIdle).2 = Err (httpError "Out of bills" 570).
Proof.
  apply (post_out_of_bills sampleSnakeCase sampleToObj noChange dispenseRequest
           (sampleToObj idleRow) dispenseRequest sampleIntegration
           [Cassette 20 5; Cassette 50 5] storedIdle
           (transaction sampleSnakeCase sampleToObj dispenseRequest
              sampleIntegration storedIdle).1).
  - by vm_compute.
  - left. by vm_compute.
  - reflexivity.
  - reflexivity.
Defined.

(** C4 (the code departs from the claim): the record with phone 777 is
    updated with a patch of its status alone. The row written is the whole
    record, the phone with it, not the patch; the record returned is the one
    given with the patch merged in. *)
Theorem update_writes_whole_record :
  props statusPatch = obj [("status", VStr "confirmed")]
  ∧ cash_out_txs storedPublished
    = [obj [("id", VStr "t1"); ("status", VStr "published"); ("phone", VStr "555")]]
  ∧ cash_out_txs (update sampleSnakeCase confirmedOtherPhone statusPatch storedPublished).1
    = [obj [("id", VStr "t1"); ("status", VStr "confirmed"); ("phone", VStr "777")]]
  ∧ (update sampleSnakeCase confirmedOtherPhone statusPatch storedPublished).2
    = Ok (mergeTx confirmedOtherPhone statusPatch).
Proof. vm_compute. done. Qed.

(** C3 (the code departs from the claim): the stored row has phone 555 and
    the update carries null for it while the status moves on. The patch holds
    the status alone, as the claim says of [diff], yet the row ends with the
    phone overwritten by null, because the update writes the whole incoming
    record. *)
Theorem post_nulls_stored_phone :
  get publishedRow "phone" = VStr "555"
  ∧ props (diff (Some publishedTx) (updateStatus publishedTx confirmedNoPhone))
    = obj [("status", VStr "confirmed")]
  ∧ cash_out_txs
      (post sampleSnakeCase sampleToObj noChange confirmedNoPhone
         sampleIntegration storedPublished).1
    = [obj [("id", VStr "t1"); ("status", VStr "confirmed"); ("phone", VNull)]].
Proof. vm_compute. done. Qed.

(** ** Cancel *)

Lemma hasId_setColumns (cols row : gmap string value) (id : value) :
  cols !! "id" = None → hasId id (setColumns cols row) = hasId id row.
Proof.
  intros Hc. unfold hasId, setColumns.
  by rewrite lookup_union_r by (by rewrite lookup_fmap, Hc).
Qed.

Lemma filter_length_fmap {A} (P : A → Prop) `{∀ x, Decision (P x)} (f : A → A)
    (l : list A) :
  (∀ x, P (f x) ↔ P x) → length (filter P (f <$> l)) = length (filter P l).
Proof.
  intros Hf. induction l as [| x l IH]; [done |].
  rewrite fmap_cons, !filter_cons.
  destruct (decide (P (f x))) as [Hy | Hn], (decide (P x)) as [Hy' | Hn'];
    cbn; rewrite ?IH; try done.
  - destruct Hn'. by apply (proj1 (Hf x)).
  - destruct Hn. by apply (proj2 (Hf x)).
Qed.

Lemma bool_decide_one_row (n : nat) :
  bool_decide (Z.of_nat n = 1) = bool_decide (n = 1%nat).
Proof. apply bool_decide_ext. lia. Qed.

Lemma cancel_result (txId : value) (w : world) :
  (cancel txId w).2 =
    if bool_decide (rowCount txId w = 1%nat) then Ok tt
    else Err (newError "No such tx-id").
Proof.
  unfold cancel, bind, updateRows, rowCount. simpl.
  rewrite bool_decide_one_row. by destruct (bool_decide _).
Qed.

Lemma cancel_actions (txId : value) (w : world) :
  cash_out_actions (cancel txId w).1 =
    if bool_decide (rowCount txId w = 1%nat)
    then cash_out_actions w ++ [operatorCompleted txId]
    else cash_out_actions w.
Proof.
  unfold cancel, bind, updateRows, rowCount. simpl.
  rewrite bool_decide_one_row. by destruct (bool_decide _).
Qed.

Lemma cancel_rowCount (txId : value) (w : world) :
  rowCount txId (cancel txId w).1 = rowCount txId w.
Proof.
  assert (∀ cols, cols !! "id" = None →
            length (filter (λ row, hasId txId row)
                      ((λ row, if hasId txId row then setColumns cols row else row)
                         <$> cash_out_txs w))
            = rowCount txId w) as Hrows.
  { intros cols Hc. apply filter_length_fmap. intros row.
    destruct (hasId txId row) eqn:E; [| by rewrite E].
    by rewrite hasId_setColumns, E. }
  unfold cancel, bind, updateRows. simpl.
  destruct (bool_decide _); simpl; unfold rowCount; simpl; by apply Hrows.
Qed.

(** C8, as the code has it: cancel fails with the no-such-transaction error
    exactly when the update by id changes a number of rows other than one, in
    particular when no row has the id; it looks at nothing else of the row,
    so it succeeds for the single row of an id whether that transaction is
    open or already terminal, and succeeds again when repeated. Each success
    appends exactly one operatorCompleted entry, a failure appends none. *)
Theorem cancel_by_row_count (txId : value) (w : world) :
  ((cancel txId w).2 = Err (newError "No such tx-id") ↔ rowCount txId w ≠ 1%nat)
  ∧ ((cancel txId w).2 = Ok tt ↔ rowCount txId w = 1%nat)
  ∧ (rowCount txId w = 0%nat → (cancel txId w).2 = Err (newError "No such tx-id"))
  ∧ ((cancel txId w).2 = Ok tt →
       cash_out_actions (cancel txId w).1
       = cash_out_actions w ++ [operatorCompleted txId])
  ∧ ((cancel txId w).2 ≠ Ok tt →
       cash_out_actions (cancel txId w).1 = cash_out_actions w)
  ∧ ((cancel txId w).2 = Ok tt → (cancel txId (cancel txId w).1).2 = Ok tt).
Proof.
  pose proof (cancel_result txId w) as Hr.
  pose proof (cancel_actions txId w) as Ha.
  pose proof (cancel_result txId (cancel txId w).1) as Hr2.
  rewrite cancel_rowCount in Hr2.
  destruct (bool_decide_reflect (rowCount txId w = 1%nat)) as [H1 | H1];
    rewrite Hr, ?Hr2, ?Ha; repeat split; try done; congruence.
Qed.

(** C8, the claim as stated fails: the single row of id t1 is cancelled, which
    sets its dispense flag and the operator's error, and a second cancel of
    the now terminal transaction succeeds as well, leaving two
    operatorCompleted entries. *)
Lemma cancel_twice_succeeds :
  (cancel (VStr "t1") storedPublished).2 = Ok tt
  ∧ (λ row, (get row "dispense", get row "error"))
      <$> cash_out_txs (cancel (VStr "t1") storedPublished).1
    = [(VBool true, VStr "Operator cancel")]
  ∧ (cancel (VStr "t1") (cancel (VStr "t1") storedPublished).1).2 = Ok tt
  ∧ cash_out_actions (cancel (VStr "t1") (cancel (VStr "t1") storedPublished).1).1
    = [operatorCompleted (VStr "t1"); operatorCompleted (VStr "t1")].
Proof. vm_compute. done. Qed.

(** * Further properties of the module *)

(** ** Diff, beyond the fields it compares *)

Lemma foldl_diffField_new_lookup (n : tx) (fields : list string)
    (acc : gmap string value) (k : string) :
  foldl (diffField None n) acc fields !! k =
    if bool_decide (k ∈ fields) then Some (prop n k) else acc !! k.
Proof.
  revert acc. induction fields as [| f fields IH]; intros acc; cbn; [done |].
  rewrite IH. unfold diffField.
  destruct (decide (k = f)) as [-> | Hne].
  - rewrite (bool_decide_eq_true_2 (f ∈ f :: fields)) by (apply elem_of_cons; by left).
    destruct (bool_decide (f ∈ fields)); [done | by rewrite lookup_insert_eq].
  - assert (bool_decide (k ∈ f :: fields) = bool_decide (k ∈ fields)) as ->.
    { apply bool_decide_ext. rewrite elem_of_cons. intuition congruence. }
    destruct (bool_decide (k ∈ fields)); [done | by rewrite lookup_insert_ne].
Qed.

(** X1: for an existing row, the patch holds [v] under a key exactly when
    the key is an updateable field, [v] is the new record's value, [v] is
    neither null nor undefined, and the old record's value is another one. *)
Theorem diff_patch_entry (o n : tx) (k : string) (v : value) :
  props (diff (Some o) n) !! k = Some v
  ↔ k ∈ UPDATEABLE_FIELDS ∧ v = prop n k ∧ isNil v = false ∧ prop o k ≠ v.
Proof.
  rewrite diff_lookup. unfold changed. split.
  - destruct (bool_decide_reflect (k ∈ UPDATEABLE_FIELDS)) as [Hk | Hk]; [| done].
    destruct (isEqualWith nilEqual (prop o k) (prop n k)) eqn:E; [done |].
    destruct (isNil (prop n k)) eqn:En; [done |]. cbn.
    intros [= <-]. repeat split; try done.
    intros Ho. assert (isEqualWith nilEqual (prop o k) (prop n k) = true)
      by (apply isEqualWith_nilEqual_true; by left).
    congruence.
  - intros (Hk & -> & Hn & Hne). rewrite (bool_decide_eq_true_2 _ Hk), Hn.
    destruct (isEqualWith nilEqual (prop o k) (prop n k)) eqn:E; [| done].
    apply isEqualWith_nilEqual_true in E as [E | [_ E]]; congruence.
Qed.

(** X2: without an old row the patch takes every updateable field from the
    new record, a missing one as [undefined], and nothing else. *)
Theorem diff_without_old_row (n : tx) (k : string) :
  props (diff None n) !! k
  = if bool_decide (k ∈ UPDATEABLE_FIELDS) then Some (prop n k) else None.
Proof. unfold diff. cbn [props]. by rewrite foldl_diffField_new_lookup, lookup_empty. Qed.

(** X3: whatever the old row, a property that is not an updateable field
    (the id, the amounts, the address, the bills) never enters the patch. *)
Theorem diff_skips_other_fields (oldTx : option tx) (n : tx) (k : string) :
  k ∉ UPDATEABLE_FIELDS →
  props (diff oldTx n) !! k = None ∧ bills (diff oldTx n) = None.
Proof.
  intros Hk. split; [| done]. destruct oldTx as [o |].
  - rewrite diff_lookup. by rewrite (bool_decide_eq_false_2 _ Hk).
  - unfold diff. cbn [props]. rewrite foldl_diffField_new_lookup, lookup_empty.
    by rewrite (bool_decide_eq_false_2 _ Hk).
Qed.

(** The amount of a record is never part of its patch. *)
Lemma diff_skips_fiat :
  props (diff (Some (sampleToObj idleRow)) dispenseRequest) !! "fiat" = None.
Proof.
  apply (diff_skips_other_fields (Some (sampleToObj idleRow)) dispenseRequest "fiat").
  unfold UPDATEABLE_FIELDS. rewrite !elem_of_cons, elem_of_nil.
  intros H. repeat (destruct H as [H | H]; [discriminate |]). done.
Defined.

(** ** The ratchet as an operation on statuses *)

Lemma orderedStatus_cases (P : value → Prop) :
  P (VStr "notSeen") → P (VStr "published") → P (VStr "rejected") →
  P (VStr "authorized") → P (VStr "instant") → P (VStr "confirmed") →
  ∀ s, s ∈ (VStr <$> statusOrder) → P s.
Proof.
  intros H1 H2 H3 H4 H5 H6 s Hs. cbn in Hs.
  repeat (apply elem_of_cons in Hs as [-> | Hs]; [assumption |]).
  by apply elem_of_nil in Hs.
Qed.

(** X4: on the six statuses of the order the ratchet is the maximum for the
    order: it returns one of its two arguments, the one of the higher index,
    and it is commutative and associative. *)
Theorem ratchetStatus_is_maximum (a b c : value) :
  a ∈ (VStr <$> statusOrder) →
  b ∈ (VStr <$> statusOrder) →
  c ∈ (VStr <$> statusOrder) →
  (ratchetStatus a b = a ∨ ratchetStatus a b = b)
  ∧ indexOf statusOrder (ratchetStatus a b)
    = Z.max (indexOf statusOrder a) (indexOf statusOrder b)
  ∧ ratchetStatus a b = ratchetStatus b a
  ∧ ratchetStatus (ratchetStatus a b) c = ratchetStatus a (ratchetStatus b c).
Proof.
  intros Ha Hb Hc. revert c Hc. revert b Hb. revert a Ha.
  apply (orderedStatus_cases (λ a, ∀ b, b ∈ _ → ∀ c, c ∈ _ → _));
    apply (orderedStatus_cases (λ b, ∀ c, c ∈ _ → _));
    apply (orderedStatus_cases (λ c, _));
    vm_compute; intuition congruence.
Qed.

(** Rejected and authorized in either order end authorized. *)
Lemma ratchetStatus_rejected_authorized :
  ratchetStatus (VStr "rejected") (VStr "authorized")
  = ratchetStatus (VStr "authorized") (VStr "rejected").
Proof.
  apply (ratchetStatus_is_maximum (VStr "rejected") (VStr "authorized") (VStr "notSeen"));
    cbn; rewrite !elem_of_cons; intuition.
Defined.

Lemma indexOf_lower_bound (array : list string) (v : value) :
  -1 ≤ indexOf array v.
Proof.
  induction array as [| s array IH]; cbn; [lia |].
  destruct (strictEq (VStr s) v); [lia |].
  destruct (indexOf array v <? 0) eqn:E; lia.
Qed.

Lemma indexOf_not_in (array : list string) (v : value) :
  v ∉ (VStr <$> array) → indexOf array v = -1.
Proof.
  induction array as [| s array IH]; cbn; [done |].
  rewrite not_elem_of_cons. intros [Hne Hnin]. unfold strictEq.
  rewrite bool_decide_eq_false_2 by congruence.
  by rewrite IH.
Qed.

Lemma index_statusOrder_indexOf (v : value) :
  0 ≤ indexOf statusOrder v → index statusOrder (indexOf statusOrder v) = v.
Proof.
  destruct (decide (v ∈ (VStr <$> statusOrder))) as [Hin | Hnin].
  - revert v Hin.
    apply (orderedStatus_cases
             (λ v, 0 ≤ indexOf statusOrder v
                   → index statusOrder (indexOf statusOrder v) = v));
      intros _; by vm_compute.
  - rewrite (indexOf_not_in _ _ Hnin). lia.
Qed.

(** X5: a status outside the order, other than insufficientFunds, never
    replaces a status of the order; coming after another status outside the
    order it leaves the status undefined. *)
Theorem ratchetStatus_unknown_new_status (oldStatus newStatus : value) :
  indexOf statusOrder newStatus = -1 →
  newStatus ≠ VStr "insufficientFunds" →
  ratchetStatus oldStatus newStatus
  = if bool_decide (oldStatus = newStatus) then oldStatus
    else if bool_decide (0 ≤ indexOf statusOrder oldStatus) then oldStatus
    else VUndefined.
Proof.
  intros Hidx Hne. unfold ratchetStatus, strictEq.
  case_bool_decide as Heq; [done |].
  rewrite (bool_decide_eq_false_2 _ Hne), Hidx.
  case_bool_decide as Hold.
  - rewrite Z.max_l by lia. by apply index_statusOrder_indexOf.
  - pose proof (indexOf_lower_bound statusOrder oldStatus).
    assert (indexOf statusOrder oldStatus = -1) as -> by lia. done.
Qed.

(** A published transaction reported with a status the module does not know
    stays published. *)
Lemma ratchetStatus_keeps_published :
  ratchetStatus (VStr "published") (VStr "expired") = VStr "published".
Proof.
  apply (ratchetStatus_unknown_new_status (VStr "published") (VStr "expired"));
    [reflexivity | discriminate].
Defined.

(** ** Pre-processing of an existing row *)

(** X6: when the ratcheted status differs from the stored one, the only
    effect on the tables is one audit entry named after the new status, with
    the address and the hash; the dispense confirmation is not looked at, so
    the cassettes stay as they are even if the same update confirms the
    dispense. *)
Theorem preProcess_status_change_only_logs (oldTx newTx : tx) (pi : integration)
    (w : world) :
  prop (updateStatus oldTx newTx) "status" ≠ prop oldTx "status" →
  (preProcess (Some oldTx) newTx pi w).2 = Ok (updateStatus oldTx newTx)
  ∧ cash_out_actions (preProcess (Some oldTx) newTx pi w).1
    = cash_out_actions w ++ [statusEntry (updateStatus oldTx newTx)]
  ∧ devices (preProcess (Some oldTx) newTx pi w).1 = devices w
  ∧ cash_out_txs (preProcess (Some oldTx) newTx pi w).1 = cash_out_txs w
  ∧ hd_indices_seq (preProcess (Some oldTx) newTx pi w).1 = hd_indices_seq w.
Proof.
  intros Hne. unfold preProcess, strictEq.
  rewrite (bool_decide_eq_false_2 _ Hne). cbn [negb].
  unfold bind, logAction, insertAction, sell, ret, bind.
  by destruct (wasJustAuthorized oldTx (updateStatus oldTx newTx)).
Qed.

(** The dispense is confirmed in the update that moves instant to confirmed:
    the device keeps its five and five notes. *)
Lemma preProcess_status_change_keeps_cassettes :
  devices (preProcess (Some instantUndispensed) confirmedDispensed sampleIntegration
             oneDevice).1 = [Device "d1" 5 5].
Proof.
  apply (preProcess_status_change_only_logs instantUndispensed confirmedDispensed
           sampleIntegration oneDevice).
  by vm_compute.
Defined.

Lemma mapDispense_two (t : tx) (b0 b1 : bill) (rest : list bill) :
  bills t = Some (b0 :: b1 :: rest) →
  ∃ mapped, mapDispense t = Ok mapped
    ∧ mapped !! "error" = None ∧ mapped !! "error_code" = None
    ∧ mapped !! "dispensed_1" = Some (VNum (dispensed b0))
    ∧ mapped !! "rejected_1" = Some (VNum (rejected b0))
    ∧ mapped !! "dispensed_2" = Some (VNum (dispensed b1))
    ∧ mapped !! "rejected_2" = Some (VNum (rejected b1)).
Proof.
  intros Hb. unfold mapDispense. rewrite Hb. eexists. split; [reflexivity |].
  repeat split;
    repeat (rewrite lookup_insert_ne by done);
    try (by rewrite lookup_insert_eq); by rewrite ?lookup_singleton_ne.
Qed.

Lemma get_mergeObj_base (mapped base : gmap string value) (k : string) :
  mapped !! k = None → get (mergeObj mapped base) k = get base k.
Proof.
  intros Hm. unfold get, mergeObj. rewrite lookup_merge, Hm.
  destruct (base !! k) as [[] |]; done.
Qed.

Lemma get_mergeObj_mapped (mapped base : gmap string value) (k : string) :
  base !! k = None → get (mergeObj mapped base) k = get mapped k.
Proof.
  intros Hb. unfold get, mergeObj. rewrite lookup_merge, Hb.
  by destruct (mapped !! k).
Qed.

(** X7: when the status stays and [dispenseConfirmed] goes from falsy to
    truthy on a record with the bills of two cassettes, one entry named
    dispense is appended, carrying the record's error and the dispensed and
    rejected counts of both cassettes, and every device row of the record's
    device loses dispensed + rejected notes per cassette while the other
    devices keep theirs. *)
Theorem preProcess_dispense_confirmed (oldTx newTx : tx) (pi : integration)
    (w : world) (b0 b1 : bill) (rest : list bill) :
  prop (updateStatus oldTx newTx) "status" = prop oldTx "status" →
  truthy (prop oldTx "dispenseConfirmed") = false →
  truthy (prop newTx "dispenseConfirmed") = true →
  bills newTx = Some (b0 :: b1 :: rest) →
  (preProcess (Some oldTx) newTx pi w).2 = Ok (updateStatus oldTx newTx)
  ∧ (∃ rec,
       cash_out_actions (preProcess (Some oldTx) newTx pi w).1
       = cash_out_actions w ++ [rec]
       ∧ get rec "action" = VStr "dispense"
       ∧ get rec "tx_id" = prop newTx "id"
       ∧ get rec "error" = prop newTx "error"
       ∧ get rec "dispensed_1" = VNum (dispensed b0)
       ∧ get rec "rejected_1" = VNum (rejected b0)
       ∧ get rec "dispensed_2" = VNum (dispensed b1)
       ∧ get rec "rejected_2" = VNum (rejected b1))
  ∧ devices (preProcess (Some oldTx) newTx pi w).1
    = (λ d, if bool_decide (VStr (device_id d) = prop newTx "deviceId")
            then Device (device_id d)
                   (cassette1 d - (dispensed b0 + rejected b0))
                   (cassette2 d - (dispensed b1 + rejected b1))
            else d) <$> devices w.
Proof.
  intros Hst Hold Hnew Hb.
  assert (∀ k, k ≠ "status" → prop (updateStatus oldTx newTx) k = prop newTx k)
    as Hframe.
  { intros k Hk. unfold updateStatus, set, prop, get. cbn [props].
    by rewrite lookup_insert_ne. }
  assert (bills (updateStatus oldTx newTx) = Some (b0 :: b1 :: rest)) as Hb'
    by done.
  destruct (mapDispense_two _ _ _ _ Hb')
    as (mapped & Hm & He & Hec & Hd1 & Hr1 & Hd2 & Hr2).
  unfold preProcess, strictEq.
  rewrite (bool_decide_eq_true_2 _ Hst). cbn [negb].
  rewrite Hold, (Hframe "dispenseConfirmed") by done. rewrite Hnew. cbn [negb andb].
  unfold bind, logDispense, bind, liftR. rewrite Hm.
  rewrite (Hframe "dispenseConfirmed"), Hnew by done.
  unfold logAction, bind, insertAction, ret, updateCassettes. rewrite Hb'.
  unfold decrementCassettes. cbn [fst snd cash_out_actions devices].
  rewrite !(Hframe "deviceId"), !(Hframe "id"), !(Hframe "error") by done.
  split; [done |]. split; [| done].
  eexists. split; [reflexivity |].
  unfold get at 1 2.
  rewrite lookup_insert_ne, lookup_insert_ne, lookup_insert_eq by done.
  rewrite lookup_insert_ne, lookup_insert_eq by done.
  split; [done |]. split; [done |].
  repeat split; unfold get at 1; do 3 (rewrite lookup_insert_ne by done);
    lazymatch goal with
    | |- default VUndefined (?m !! ?k) = ?r => change (get m k = r)
    end;
    [ rewrite get_mergeObj_base by done; unfold get;
      by rewrite lookup_insert_ne, lookup_singleton_eq
    | rewrite get_mergeObj_mapped
        by (by rewrite lookup_insert_ne, lookup_singleton_ne);
      unfold get; by rewrite ?Hd1, ?Hr1, ?Hd2, ?Hr2 .. ].
Qed.

(** The device reports a dispense with one note rejected in the second
    cassette: five and five notes become four and four. *)
Lemma preProcess_dispense_confirmed_sample :
  devices (preProcess (Some undispensedTx) dispensedWithError sampleIntegration
             oneDevice).1 = [Device "d1" 4 4].
Proof.
  exact (proj2 (proj2 (preProcess_dispense_confirmed undispensedTx dispensedWithError
                         sampleIntegration oneDevice (Bill 1 1 0 20) (Bill 1 0 1 50) []
                         eq_refl eq_refl eq_refl eq_refl))).
Defined.

(** X8: a dispense confirmation that comes without bills is logged all the
    same, as a dispense entry without counts, and the call then rejects with
    a TypeError raised while reading [bills[0]]; no device row changes. *)
Theorem preProcess_dispense_without_bills (oldTx newTx : tx) (pi : integration)
    (w : world) :
  prop (updateStatus oldTx newTx) "status" = prop oldTx "status" →
  truthy (prop oldTx "dispenseConfirmed") = false →
  truthy (prop newTx "dispenseConfirmed") = true →
  bills newTx = None ∨ bills newTx = Some [] →
  (preProcess (Some oldTx) newTx pi w).2 = Err typeError
  ∧ (∃ rec,
       cash_out_actions (preProcess (Some oldTx) newTx pi w).1
       = cash_out_actions w ++ [rec]
       ∧ get rec "action" = VStr "dispense"
       ∧ get rec "dispensed_1" = VUndefined)
  ∧ devices (preProcess (Some oldTx) newTx pi w).1 = devices w.
Proof.
  intros Hst Hold Hnew Hb.
  assert (prop (updateStatus oldTx newTx) "dispenseConfirmed"
          = prop newTx "dispenseConfirmed") as Hdc.
  { unfold updateStatus, set, prop, get. cbn [props]. by rewrite lookup_insert_ne. }
  assert (bills (updateStatus oldTx newTx) = bills newTx) as Hb' by done.
  unfold preProcess, strictEq.
  rewrite (bool_decide_eq_true_2 _ Hst). cbn [negb].
  rewrite Hold, Hdc, Hnew. cbn [negb andb].
  unfold bind, logDispense, bind, liftR, mapDispense, updateCassettes.
  rewrite Hdc, Hnew, Hb'.
  destruct Hb as [-> | ->]; cbn [fst snd cash_out_actions devices logAction];
    unfold logAction, bind, insertAction, ret, throw;
    cbn [fst snd cash_out_actions devices];
    (split; [done |]); (split; [| done]);
    eexists; (split; [reflexivity |]); unfold get;
    (split; [by rewrite lookup_insert_ne, lookup_insert_ne, lookup_insert_eq |]);
    do 3 (rewrite lookup_insert_ne by done);
    unfold mergeObj; rewrite lookup_merge, lookup_empty;
    by rewrite lookup_insert_ne, lookup_singleton_ne.
Qed.

(** The report of the dispense arrives without bills. *)
Lemma preProcess_dispense_without_bills_sample :
  (preProcess (Some undispensedTx) dispensedNoBills sampleIntegration oneDevice).2
  = Err typeError.
Proof.
  apply (preProcess_dispense_without_bills undispensedTx dispensedNoBills
           sampleIntegration oneDevice); try reflexivity.
  by left.
Defined.

(** X9: pre-processing of an existing row never writes a transaction row and
    never takes a sequence value, and it appends at most one audit entry,
    leaving the entries that are there. *)
Theorem preProcess_existing_row_frame (oldTx newTx : tx) (pi : integration)
    (w : world) :
  cash_out_txs (preProcess (Some oldTx) newTx pi w).1 = cash_out_txs w
  ∧ hd_indices_seq (preProcess (Some oldTx) newTx pi w).1 = hd_indices_seq w
  ∧ ∃ l, cash_out_actions (preProcess (Some oldTx) newTx pi w).1
         = cash_out_actions w ++ l
         ∧ (length l ≤ 1)%nat.
Proof.
  unfold preProcess.
  destruct (negb (strictEq _ _)).
  { unfold bind, logAction, insertAction, sell, ret, bind.
    destruct (wasJustAuthorized _ _); cbn;
      (repeat split; try done); one_entry. }
  destruct (_ && _).
  { unfold bind, logDispense, bind, liftR.
    destruct (mapDispense _) as [mapped | e]; cbn.
    - unfold updateCassettes.
      destruct (bills _) as [[| b0 [| b1 rest]] |]; cbn;
        (repeat split; try done); one_entry.
    - (repeat split; try done). no_entry. }
  destruct (_ && _).
  { cbn. (repeat split; try done). one_entry. }
  destruct (_ && _).
  { cbn. (repeat split; try done). one_entry. }
  cbn. (repeat split; try done). no_entry.
Qed.

(** ** Pre-processing of a new transaction *)

(** X10: for an id without a row, when the integration answers the HD
    question and hands out an address, the record leaves pre-processing with
    that address, and with the next value of the sequence as [hdIndex] when
    the device is HD; one provisionAddress entry carries the address; the
    sequence moves only for an HD device, and no transaction row is written
    yet. *)
Theorem preProcess_new_row_address (t : tx) (pi : integration) (w : world)
    (hd address : value) :
  isHd pi t = Ok hd →
  newAddress pi (if truthy hd then set "hdIndex" (VNum (hd_indices_seq w + 1)) t else t)
  = Ok address →
  (preProcess None t pi w).2
  = Ok (set "toAddress" address
          (if truthy hd then set "hdIndex" (VNum (hd_indices_seq w + 1)) t else t))
  ∧ cash_out_actions (preProcess None t pi w).1
    = cash_out_actions w
      ++ [provisionAddressEntry
            (set "toAddress" address
               (if truthy hd then set "hdIndex" (VNum (hd_indices_seq w + 1)) t else t))]
  ∧ hd_indices_seq (preProcess None t pi w).1
    = (if truthy hd then hd_indices_seq w + 1 else hd_indices_seq w)
  ∧ cash_out_txs (preProcess None t pi w).1 = cash_out_txs w.
Proof.
  intros Hhd Haddr.
  unfold preProcess, catch, bind, liftR. rewrite Hhd.
  unfold nextHd. destruct (truthy hd); cbn [negb].
  - unfold bind, nextval, ret. cbn [fst snd hd_indices_seq]. rewrite Haddr.
    unfold logAction, bind, insertAction, ret. done.
  - unfold ret. rewrite Haddr.
    unfold logAction, bind, insertAction, ret. done.
Qed.

(** A first sight on an HD device: index 1 and the address. *)
Lemma preProcess_new_row_address_sample :
  (preProcess None freshTx hdIntegration emptyWorld).2
  = Ok (set "toAddress" (VStr "1BoatSLRHtKNngkdXEeobR76b53LETtpyT")
          (set "hdIndex" (VNum 1) freshTx)).
Proof.
  apply (preProcess_new_row_address freshTx hdIntegration emptyWorld (VBool true)
           (VStr "1BoatSLRHtKNngkdXEeobR76b53LETtpyT")); reflexivity.
Defined.

(** X11: when the integration fails to hand out an address, the call rejects
    with the integration's error after appending one entry that carries the
    error's message and name under the action name provisionAddress; no row
    is written, and on an HD device the sequence value taken for the address
    is spent. *)
Theorem preProcess_new_row_address_failure (t : tx) (pi : integration) (w : world)
    (hd : value) (err : error) :
  isHd pi t = Ok hd →
  newAddress pi (if truthy hd then set "hdIndex" (VNum (hd_indices_seq w + 1)) t else t)
  = Err err →
  (preProcess None t pi w).2 = Err err
  ∧ cash_out_actions (preProcess None t pi w).1
    = cash_out_actions w ++ [errorEntry "provisionAddress" err t]
  ∧ hd_indices_seq (preProcess None t pi w).1
    = (if truthy hd then hd_indices_seq w + 1 else hd_indices_seq w)
  ∧ cash_out_txs (preProcess None t pi w).1 = cash_out_txs w.
Proof.
  intros Hhd Haddr.
  unfold preProcess, catch, bind, liftR. rewrite Hhd.
  unfold nextHd. destruct (truthy hd); cbn [negb].
  - unfold bind, nextval, ret. cbn [fst snd hd_indices_seq]. rewrite Haddr.
    unfold logError, logAction, bind, insertAction, ret, throw. done.
  - unfold ret. rewrite Haddr.
    unfold logError, logAction, bind, insertAction, ret, throw. done.
Qed.

(** The wallet is down on an HD device: the error comes back, logged, and
    index 1 is gone. *)
Lemma preProcess_new_row_address_failure_sample :
  (preProcess None freshTx downIntegration emptyWorld).2 = Err walletDown
  ∧ hd_indices_seq (preProcess None freshTx downIntegration emptyWorld).1 = 1.
Proof.
  pose proof (preProcess_new_row_address_failure freshTx downIntegration emptyWorld
                (VBool true) walletDown eq_refl eq_refl) as (Hr & _ & Hs & _).
  split; [exact Hr | exact Hs].
Defined.

(** ** Post-processing *)

Section PostProcessProperties.

Variable makeChange : list cassette → value → option (list bill).

Lemma newlyRequested_true (oldTx newTx : tx) :
  (truthy (prop newTx "dispense") = true ∧ truthy (prop oldTx "dispense") = false)
  ∨ (truthy (prop newTx "redeem") = true ∧ truthy (prop oldTx "redeem") = false) →
  newlyRequested (Some oldTx) newTx = Ok true.
Proof.
  intros Hreq. unfold newlyRequested. f_equal.
  destruct Hreq as [[-> ->] | [-> ->]]; cbn; [done | apply orb_true_r].
Qed.

(** X12: when dispensing or redemption is newly requested, the cassettes are
    read and [makeChange] returns bills for them, post-processing hands the
    record to [sell], resolves to the record with these bills attached, and
    appends one provisionNotes entry with the provisioned counts and the
    denominations of the first two bills; it writes no transaction row. *)
Theorem postProcess_provisions_notes (oldTx newTx : tx) (pi : integration)
    (cassettes : list cassette) (b0 b1 : bill) (rest : list bill) (w : world) :
  (truthy (prop newTx "dispense") = true ∧ truthy (prop oldTx "dispense") = false)
  ∨ (truthy (prop newTx "redeem") = true ∧ truthy (prop oldTx "redeem") = false) →
  buildCassettes pi = Ok cassettes →
  makeChange cassettes (prop newTx "fiat") = Some (b0 :: b1 :: rest) →
  (postProcess makeChange (Some oldTx, newTx) pi w).2
  = Ok (setBills (b0 :: b1 :: rest) newTx)
  ∧ cash_out_actions (postProcess makeChange (Some oldTx, newTx) pi w).1
    = cash_out_actions w ++ [provisionNotesEntry b0 b1 newTx]
  ∧ sold (postProcess makeChange (Some oldTx, newTx) pi w).1 = sold w ++ [newTx]
  ∧ cash_out_txs (postProcess makeChange (Some oldTx, newTx) pi w).1 = cash_out_txs w.
Proof.
  intros Hreq Hcas Hchange.
  unfold postProcess, bind, liftR, catch.
  rewrite (newlyRequested_true _ _ Hreq), Hcas. cbn. rewrite Hchange. cbn. done.
Qed.

(** X13: when the integration cannot read the cassettes, post-processing
    rejects with the integration's error after appending one
    provisionNotesError entry with its message and name; [sell] is not
    called. *)
Theorem postProcess_cassettes_unavailable (oldTx newTx : tx) (pi : integration)
    (err : error) (w : world) :
  (truthy (prop newTx "dispense") = true ∧ truthy (prop oldTx "dispense") = false)
  ∨ (truthy (prop newTx "redeem") = true ∧ truthy (prop oldTx "redeem") = false) →
  buildCassettes pi = Err err →
  (postProcess makeChange (Some oldTx, newTx) pi w).2 = Err err
  ∧ cash_out_actions (postProcess makeChange (Some oldTx, newTx) pi w).1
    = cash_out_actions w ++ [errorEntry "provisionNotesError" err newTx]
  ∧ sold (postProcess makeChange (Some oldTx, newTx) pi w).1 = sold w.
Proof.
  intros Hreq Hcas.
  unfold postProcess, bind, liftR, catch.
  rewrite (newlyRequested_true _ _ Hreq), Hcas. cbn. done.
Qed.

(** X14: notes are provisioned on the transition only: when the old row
    already has every request the new record has, post-processing does
    nothing and resolves to the record. *)
Theorem postProcess_already_requested (oldTx newTx : tx) (pi : integration)
    (w : world) :
  (truthy (prop newTx "dispense") = true → truthy (prop oldTx "dispense") = true) →
  (truthy (prop newTx "redeem") = true → truthy (prop oldTx "redeem") = true) →
  postProcess makeChange (Some oldTx, newTx) pi w = (w, Ok newTx).
Proof.
  intros Hd Hr. unfold postProcess, bind, liftR, newlyRequested.
  destruct (truthy (prop newTx "dispense")), (truthy (prop oldTx "dispense")),
    (truthy (prop newTx "redeem")), (truthy (prop oldTx "redeem"));
    cbn; try done; first [by specialize (Hd eq_refl) | by specialize (Hr eq_refl)].
Qed.

(** X15: without an old row the test of a new request reads a property of
    [null]: a record that comes in with dispense or redeem set makes
    post-processing reject with a TypeError that is not logged, and any
    other record passes through. *)
Theorem postProcess_without_old_row (newTx : tx) (pi : integration) (w : world) :
  postProcess makeChange (None, newTx) pi w
  = (w, if truthy (prop newTx "dispense") || truthy (prop newTx "redeem")
        then Err typeError else Ok newTx).
Proof.
  unfold postProcess, bind, liftR, newlyRequested.
  by destruct (truthy (prop newTx "dispense")), (truthy (prop newTx "redeem")).
Qed.

End PostProcessProperties.

(** Seventy is requested and paid with a twenty and a fifty. *)
Lemma postProcess_provisions_notes_sample :
  (postProcess oneOfEach (Some (sampleToObj idleRow), dispenseRequest)
     sampleIntegration storedIdle).2
  = Ok (setBills [Bill 1 0 0 20; Bill 1 0 0 50] dispenseRequest).
Proof.
  apply (postProcess_provisions_notes oneOfEach (sampleToObj idleRow) dispenseRequest
           sampleIntegration [Cassette 20 5; Cassette 50 5]
           (Bill 1 0 0 20) (Bill 1 0 0 50) [] storedIdle);
    [left; by vm_compute | reflexivity | reflexivity].
Defined.

(** The cassettes cannot be read. *)
Lemma postProcess_cassettes_unavailable_sample :
  (postProcess oneOfEach (Some (sampleToObj idleRow), dispenseRequest)
     downIntegration storedIdle).2 = Err walletDown.
Proof.
  apply (postProcess_cassettes_unavailable oneOfEach (sampleToObj idleRow)
           dispenseRequest downIntegration walletDown storedIdle);
    [left; by vm_compute | reflexivity].
Defined.

(** The dispense was requested before. *)
Lemma postProcess_already_requested_sample :
  postProcess oneOfEach (Some (sampleToObj requestedRow), dispenseRequest)
    sampleIntegration storedIdle = (storedIdle, Ok dispenseRequest).
Proof.
  apply (postProcess_already_requested oneOfEach (sampleToObj requestedRow)
           dispenseRequest sampleIntegration storedIdle).
  - intros _. by vm_compute.
  - intros H. by vm_compute in H.
Defined.

(** ** Upsert and post as a whole *)

Lemma mergeObj_included (m c : gmap string value) :
  (∀ k v, c !! k = Some v → m !! k = Some v) → mergeObj m c = m.
Proof.
  intros Hsub. apply map_eq. intros k. unfold mergeObj. rewrite lookup_merge.
  destruct (c !! k) as [v |] eqn:Ec.
  - rewrite (Hsub k v Ec). by destruct v.
  - by destruct (m !! k).
Qed.

Lemma mergeTx_diff (o t : tx) : mergeTx t (diff (Some o) t) = t.
Proof.
  destruct t as [m b]. unfold mergeTx. cbn [bills props diff]. f_equal.
  apply mergeObj_included. intros k v Hk.
  change (props (diff (Some o) (Tx m b)) !! k = Some v) in Hk.
  rewrite diff_lookup in Hk. destruct (_ && _) eqn:E; [| done].
  injection Hk as <-. unfold changed in E.
  apply andb_prop in E as [_ E]. apply andb_prop in E as [_ E].
  apply negb_true_iff in E. unfold prop, get in *. cbn [props] in *.
  by destruct (m !! k) as [[] |].
Qed.

Lemma preProcess_existing_result (o n r : tx) (pi : integration) (w : world) :
  (preProcess (Some o) n pi w).2 = Ok r → r = updateStatus o n.
Proof.
  unfold preProcess.
  destruct (negb (strictEq _ _)).
  { unfold bind, logAction, insertAction, sell, ret, bind.
    destruct (wasJustAuthorized _ _); cbn; congruence. }
  destruct (_ && _).
  { unfold bind, logDispense, bind, liftR.
    destruct (mapDispense _) as [mapped | e]; cbn; [| congruence].
    unfold updateCassettes.
    destruct (bills _) as [[| b0 [| b1 rest]] |]; cbn; congruence. }
  destruct (_ && _); [cbn; congruence |].
  destruct (_ && _); cbn; congruence.
Qed.

Lemma preProcess_appends (oldTx : option tx) (n : tx) (pi : integration) (w : world) :
  ∃ l, cash_out_actions (preProcess oldTx n pi w).1 = cash_out_actions w ++ l
       ∧ (length l ≤ 1)%nat.
Proof.
  destruct oldTx as [o |].
  - unfold preProcess.
    destruct (negb (strictEq _ _)).
    { unfold bind, logAction, insertAction, sell, ret, bind.
      destruct (wasJustAuthorized _ _); cbn; one_entry. }
    destruct (_ && _).
    { unfold bind, logDispense, bind, liftR.
      destruct (mapDispense _) as [mapped | e]; cbn; [| no_entry].
      unfold updateCassettes.
      destruct (bills _) as [[| b0 [| b1 rest]] |]; cbn; one_entry. }
    destruct (_ && _); [cbn; one_entry |].
    destruct (_ && _); cbn; [one_entry | no_entry].
  - unfold preProcess, catch, bind, liftR.
    destruct (isHd pi n) as [hd | e]; [| cbn; one_entry].
    unfold nextHd. destruct (negb (truthy hd)); unfold bind, nextval, ret;
      cbn [fst snd]; destruct (newAddress pi _); cbn; one_entry.
Qed.

Section WholeCall.

Variable snakeCase : string → string.
Variable toObjRow : gmap string value → tx.
Variable makeChange : list cassette → value → option (list bill).

Lemma update_result (t c r : tx) (w : world) :
  (update snakeCase t c w).2 = Ok r → r = t ∨ r = mergeTx t c.
Proof.
  unfold update. destruct (isEmpty c); [cbn; intros [= <-]; by left |].
  unfold bind, liftR. destruct (toDb snakeCase t); cbn; [| done].
  intros [= <-]. by right.
Qed.

Lemma insert_actions (t : tx) (w : world) :
  cash_out_actions (insert snakeCase toObjRow t w).1 = cash_out_actions w.
Proof. unfold insert, bind, liftR. by destruct (toDb snakeCase t). Qed.

Lemma upsert_actions (oldTx : option tx) (t : tx) (w : world) :
  cash_out_actions (upsert snakeCase toObjRow oldTx t w).1 = cash_out_actions w.
Proof.
  destruct oldTx as [o |]; unfold upsert, bind.
  - pose proof (update_actions snakeCase t (diff (Some o) t) w) as H.
    by destruct (update snakeCase t (diff (Some o) t) w) as [w1 [r | e]].
  - pose proof (insert_actions t w) as H.
    by destruct (insert snakeCase toObjRow t w) as [w1 [r | e]].
Qed.

Lemma postProcess_appends (txVector : option tx * tx) (pi : integration) (w : world) :
  ∃ l, cash_out_actions (postProcess makeChange txVector pi w).1
       = cash_out_actions w ++ l
       ∧ (length l ≤ 1)%nat.
Proof.
  destruct txVector as [oldTx newTx]. unfold postProcess, bind, liftR.
  destruct (newlyRequested oldTx newTx) as [[|] | e]; cbn; [| no_entry | no_entry].
  unfold catch, bind, liftR.
  destruct (buildCassettes pi) as [cassettes | e]; cbn; [| one_entry].
  destruct (makeChange cassettes _) as [[| b0 [| b1 rest]] |]; cbn; one_entry.
Qed.

Lemma postProcess_result_props (oldTx : option tx) (newTx c : tx) (pi : integration)
    (w : world) :
  (postProcess makeChange (oldTx, newTx) pi w).2 = Ok c → props c = props newTx.
Proof.
  unfold postProcess, bind, liftR.
  destruct (newlyRequested oldTx newTx) as [[|] | e]; cbn; [| congruence | done].
  unfold catch, bind, liftR.
  destruct (buildCassettes pi) as [cassettes | e]; cbn; [| done].
  destruct (makeChange cassettes _) as [[| b0 [| b1 rest]] |]; cbn; try done.
  by intros [= <-].
Qed.

(** X16: for an existing row, upsert resolves to the old row together with
    the very record it was given: merging the patch into the record adds
    nothing, so no stored value finds its way into the result. It rejects
    only when the patch is not empty and [toDb] throws. *)
Theorem upsert_existing_returns_record (o t : tx) (w : world) :
  (upsert snakeCase toObjRow (Some o) t w).2
  = if isEmpty (diff (Some o) t) then Ok (Some o, t)
    else match toDb snakeCase t with
         | Ok _ => Ok (Some o, t)
         | Err e => Err e
         end.
Proof.
  unfold upsert, bind, update.
  destruct (isEmpty (diff (Some o) t)); [done |].
  unfold bind, liftR. destruct (toDb snakeCase t); cbn; [| done].
  by rewrite mergeTx_diff.
Qed.

Lemma post_existing_row_props (t oldTx r : tx) (row : gmap string value)
    (pi : integration) (w : world) :
  filter (λ r, hasId (prop t "id") r) (cash_out_txs w) = [row] →
  toObjRow row = oldTx →
  (post snakeCase toObjRow makeChange t pi w).2 = Ok r →
  props r = props (updateStatus oldTx t).
Proof.
  intros Hrow Hobj Hpost.
  revert Hpost. unfold post, bind, transaction, bind, selectById, liftR.
    rewrite Hrow. cbn [oneOrNone toObj fmap option_fmap option_map]. rewrite Hobj.
    destruct (preProcess (Some oldTx) t pi w) as [w1 [u | e]] eqn:Hpre; [| done].
    assert (u = updateStatus oldTx t) as ->
      by (apply (preProcess_existing_result _ _ _ pi w); by rewrite Hpre).
    unfold upsert, bind.
    destruct (update snakeCase (updateStatus oldTx t)
                (diff (Some oldTx) (updateStatus oldTx t)) w1)
      as [w2 [n | e]] eqn:Hup; [| done].
    assert (n = updateStatus oldTx t) as ->.
    { destruct (update_result _ _ n w1 ltac:(by rewrite Hup)) as [-> | ->];
        [done | apply mergeTx_diff]. }
    unfold ret. cbn [snd].
    destruct (postProcess makeChange (Some oldTx, updateStatus oldTx t) pi w2)
      as [w3 [c | e]] eqn:Hpp; [| done].
    assert (props c = props (updateStatus oldTx t)) as Hc
      by (apply (postProcess_result_props (Some oldTx) _ _ pi w2); by rewrite Hpp).
    intros Hupd. destruct (update_result _ _ r w3 Hupd) as [-> | ->]; [done |].
    unfold mergeTx. cbn [props]. rewrite Hc. apply mergeObj_included. done.
Qed.

(** X17: when post resolves for an id that has a row, the record it resolves
    to has the properties of the incoming record with the status ratcheted
    against the stored one; in particular its status is never the result of
    a step back. *)
Theorem post_existing_row_result (t oldTx r : tx) (row : gmap string value)
    (pi : integration) (w : world) :
  filter (λ r, hasId (prop t "id") r) (cash_out_txs w) = [row] →
  toObjRow row = oldTx →
  (post snakeCase toObjRow makeChange t pi w).2 = Ok r →
  props r = props (updateStatus oldTx t)
  ∧ prop r "status" = ratchetStatus (prop oldTx "status") (prop t "status").
Proof.
  intros Hrow Hobj Hpost.
  pose proof (post_existing_row_props _ _ _ _ _ _ Hrow Hobj Hpost) as Hprops.
  split; [done |].
  unfold prop. rewrite Hprops. unfold updateStatus, set, get. cbn [props].
  by rewrite lookup_insert_eq.
Qed.

(** X18: whatever the record, the integration and the tables, one call of
    post leaves every audit entry that was there and appends at most two:
    one of pre-processing and one of post-processing. *)
Theorem post_appends_at_most_two (t : tx) (pi : integration) (w : world) :
  ∃ l, cash_out_actions (post snakeCase toObjRow makeChange t pi w).1
       = cash_out_actions w ++ l
       ∧ (length l ≤ 2)%nat.
Proof.
  unfold post, bind, transaction, bind, selectById, liftR.
  destruct (oneOrNone _) as [row | e]; cbn [fst snd]; [| no_entry].
  destruct (preProcess_appends (toObj toObjRow row) t pi w) as (l1 & H1 & Hl1).
  destruct (preProcess (toObj toObjRow row) t pi w) as [w1 [u | e]];
    cbn [fst snd] in *; [| exists l1; split; [done | lia]].
  pose proof (upsert_actions (toObj toObjRow row) u w1) as H2.
  destruct (upsert snakeCase toObjRow (toObj toObjRow row) u w1) as [w2 [[o n] | e]];
    cbn [fst snd] in *; [| exists l1; split; [congruence | lia]].
  destruct (postProcess_appends (o, n) pi w2) as (l3 & H3 & Hl3).
  destruct (postProcess makeChange (o, n) pi w2) as [w3 [c | e]];
    cbn [fst snd] in *.
  - pose proof (update_actions snakeCase n c w3) as H4.
    destruct (update snakeCase n c w3) as [w4 [r | e]]; cbn [fst snd] in *;
      exists (l1 ++ l3); rewrite length_app, app_assoc;
      (split; [congruence | lia]).
  - exists (l1 ++ l3). rewrite length_app, app_assoc. split; [congruence | lia].
Qed.

Lemma update_touches_only_its_rows_len (t c : tx) (w : world) :
  length (cash_out_txs (update snakeCase t c w).1) = length (cash_out_txs w).
Proof.
  unfold update. destruct (isEmpty c); [done |].
  unfold bind, liftR. destruct (toDb snakeCase t) as [d | e]; cbn; [| done].
  by rewrite length_fmap.
Qed.

(** X19: an update changes neither the number of transaction rows nor any
    row of another id, and it leaves the audit log, the devices and the
    sequence alone. *)
Theorem update_touches_only_its_rows (t c : tx) (w : world) :
  length (cash_out_txs (update snakeCase t c w).1) = length (cash_out_txs w)
  ∧ (∀ i row, cash_out_txs w !! i = Some row →
              hasId (prop t "id") row = false →
              cash_out_txs (update snakeCase t c w).1 !! i = Some row)
  ∧ cash_out_actions (update snakeCase t c w).1 = cash_out_actions w
  ∧ devices (update snakeCase t c w).1 = devices w
  ∧ hd_indices_seq (update snakeCase t c w).1 = hd_indices_seq w.
Proof.
  unfold update. destruct (isEmpty c); [done |].
  unfold bind, liftR. destruct (toDb snakeCase t) as [d | e]; cbn; [| done].
  repeat split; try done.
  - by rewrite length_fmap.
  - intros i row Hi Hid. rewrite list_lookup_fmap, Hi. cbn. by rewrite Hid.
Qed.

End WholeCall.

(** The published transaction reported as not seen (scenario B): post
    resolves to a record that is still published. *)
Lemma post_existing_row_result_sample :
  (post sampleSnakeCase sampleToObj noChange notSeenAgain sampleIntegration
     storedPublished).2 = Ok publishedTx
  ∧ prop publishedTx "status"
    = ratchetStatus (prop publishedTx "status") (prop notSeenAgain "status").
Proof.
  assert ((post sampleSnakeCase sampleToObj noChange notSeenAgain sampleIntegration
             storedPublished).2 = Ok publishedTx) as Hpost
    by (vm_compute; reflexivity).
  split; [exact Hpost |].
  apply (post_existing_row_result sampleSnakeCase sampleToObj noChange
           notSeenAgain publishedTx publishedTx publishedRow sampleIntegration
           storedPublished); [vm_compute; reflexivity | reflexivity | exact Hpost].
Defined.

(** ** Cancel, row by row *)

Lemma fmap_unmatched_rows (P : gmap string value → bool)
    (f : gmap string value → gmap string value) (rows : list (gmap string value)) :
  length (filter (λ row, P row) rows) = 0%nat →
  (λ row, if P row then f row else row) <$> rows = rows.
Proof.
  induction rows as [| row rows IH]; [done |].
  rewrite filter_cons. destruct (decide (P row)) as [Hp | Hp]; [done |].
  intros Hlen. cbn. rewrite IH by done.
  destruct (P row); [by destruct Hp | done].
Qed.

(** X20: a cancel of an id that no row has fails with the no-such-id error
    and leaves every table exactly as it was. *)
Theorem cancel_unknown_id_changes_nothing (txId : value) (w : world) :
  rowCount txId w = 0%nat →
  cancel txId w = (w, Err (newError "No such tx-id")).
Proof.
  intros Hcount. unfold cancel, bind, updateRows. cbn [fst snd].
  unfold rowCount in Hcount. rewrite Hcount, fmap_unmatched_rows by done.
  cbn. by destruct w.
Qed.

(** Nobody knows t9. *)
Lemma cancel_unknown_id_sample :
  cancel (VStr "t9") storedTwo = (storedTwo, Err (newError "No such tx-id")).
Proof.
  apply (cancel_unknown_id_changes_nothing (VStr "t9") storedTwo). by vm_compute.
Defined.

(** X21: cancel rewrites the rows of its id and no other: a row of the id
    ends with dispense set and the operator's error in place of whatever
    error it had, every column other than dispense, error and dispense_time
    keeping its value; a row of another id stays as it is, at its place. *)
Theorem cancel_row_by_row (txId : value) (w : world) (i : nat)
    (row : gmap string value) :
  cash_out_txs w !! i = Some row →
  ∃ row', cash_out_txs (cancel txId w).1 !! i = Some row'
    ∧ (hasId txId row = false → row' = row)
    ∧ (hasId txId row = true →
         get row' "dispense" = VBool true
         ∧ get row' "error" = VStr "Operator cancel"
         ∧ ∀ k, k ∉ cancelColumns → row' !! k = row !! k).
Proof.
  intros Hi.
  assert (cash_out_txs (cancel txId w).1
          = (λ row, if hasId txId row
                    then setColumns
                           (<["dispense" := VBool true]>
                              (<["error" := VStr "Operator cancel"]>
                                 {["dispense_time" := VStr "now()^"]})) row
                    else row) <$> cash_out_txs w) as ->.
  { unfold cancel, bind, updateRows. cbn [fst snd]. by destruct (bool_decide _). }
  rewrite list_lookup_fmap, Hi. cbn [fmap option_fmap option_map].
  eexists. split; [reflexivity |].
  destruct (hasId txId row); split; try done. intros _.
  unfold get, setColumns. repeat split.
  - erewrite lookup_union_Some_l; [reflexivity |].
    by rewrite lookup_fmap, lookup_insert_eq.
  - erewrite lookup_union_Some_l; [reflexivity |].
    by rewrite lookup_fmap, lookup_insert_ne, lookup_insert_eq.
  - intros k Hk. unfold cancelColumns in Hk.
    rewrite !not_elem_of_cons in Hk. destruct Hk as (H1 & H2 & H3 & _).
    rewrite lookup_union_r; [done |].
    by rewrite lookup_fmap, !lookup_insert_ne, lookup_singleton_ne.
Qed.

(** The published transaction is cancelled: the other one keeps its row. *)
Lemma cancel_row_by_row_sample :
  cash_out_txs (cancel (VStr "t1") storedTwo).1 !! 1%nat = Some otherRow.
Proof.
  destruct (cancel_row_by_row (VStr "t1") storedTwo 1 otherRow eq_refl)
    as (row' & Hrow & Hother & _).
  rewrite Hrow. f_equal. apply Hother. by vm_compute.
Defined.

(** ** Records without an amount *)

Lemma includes_amount_keys (k : string) :
  includes (JPrim (VStr k)) ["cryptoAtoms"; "fiat"] = true
  ↔ k = "cryptoAtoms" ∨ k = "fiat".
Proof.
  unfold includes. rewrite bool_decide_eq_true, !Exists_cons, Exists_nil.
  split.
  - intros [[= ->] | [[= ->] | []]]; [by left | by right].
  - intros [-> | ->]; [by left | right; by left].
Qed.

Lemma nilAmount_true (t : tx) :
  nilAmount t = true
  ↔ ∃ k v, (k = "cryptoAtoms" ∨ k = "fiat") ∧ props t !! k = Some v ∧ isNil v = true.
Proof.
  unfold nilAmount. cbn [existsb]. rewrite orb_false_r, orb_true_iff. split.
  - intros [H | H].
    + destruct (props t !! "cryptoAtoms") as [v |] eqn:E; [| done].
      exists "cryptoAtoms", v. auto.
    + destruct (props t !! "fiat") as [v |] eqn:E; [| done].
      exists "fiat", v. auto.
  - intros (k & v & [-> | ->] & Hk & Hv); rewrite Hk; auto.
Qed.

Lemma foldr_convert_result (convert : value → string → result value)
    (l : list (string * value)) :
  (∀ v k e, convert v k = Err e → e = typeError) →
  match foldr (λ kv acc,
                 match convert kv.2 kv.1, acc with
                 | Ok v, Ok m => Ok (<[kv.1 := v]> m)
                 | Err e, _ => Err e
                 | _, Err e => Err e
                 end) (Ok (∅ : gmap string value)) l with
  | Ok _ => Forall (λ kv, ∃ v', convert kv.2 kv.1 = Ok v') l
  | Err e => e = typeError ∧ Exists (λ kv, convert kv.2 kv.1 = Err typeError) l
  end.
Proof.
  intros Herr. induction l as [| [k v] l IH]; cbn; [by constructor |].
  destruct (convert v k) as [v' | e] eqn:Ec.
  - destruct (foldr _ _ l) as [m | e].
    + constructor; [by exists v' | done].
    + destruct IH as [-> IH]. split; [done | by apply Exists_cons_tl].
  - pose proof (Herr _ _ _ Ec) as ->.
    split; [done | by apply Exists_cons_hd].
Qed.

Section AmountProperties.

Variable snakeCase : string → string.
Variable toObjRow : gmap string value → tx.

Lemma toDb_nilAmount (t : tx) :
  match toDb snakeCase t with
  | Ok _ => nilAmount t = false
  | Err e => e = typeError ∧ nilAmount t = true
  end.
Proof.
  assert (∀ (v : value) (k : string),
            (if includes (JPrim (VStr k)) ["cryptoAtoms"; "fiat"]
             then match toString v with
                  | Some s => Ok (VStr s)
                  | None => Err typeError
                  end
             else Ok v) = Err typeError
            ↔ (k = "cryptoAtoms" ∨ k = "fiat") ∧ isNil v = true) as Hconv.
  { intros v k. rewrite <- includes_amount_keys.
    destruct (includes _ _); [| by intuition].
    destruct v as [| | [|] | n | s']; cbn; intuition congruence. }
  pose proof (foldr_convert_result
                (λ (v : value) (key : string),
                   if includes (JPrim (VStr key)) ["cryptoAtoms"; "fiat"]
                   then match toString v with
                        | Some s => Ok (VStr s)
                        | None => Err typeError
                        end
                   else Ok v)
                (map_to_list (props t))) as Hfold.
  cbv beta in Hfold.
  assert (∀ (v : value) (k : string) (e : error),
            (if includes (JPrim (VStr k)) ["cryptoAtoms"; "fiat"]
             then match toString v with
                  | Some s => Ok (VStr s)
                  | None => Err typeError
                  end
             else Ok v) = Err e → e = typeError) as Herr.
  { intros v k e. destruct (includes _ _); [| done].
    destruct (toString v); congruence. }
  specialize (Hfold Herr).
  unfold toDb, convertBigNumFields, mapValuesWithKey.
  cbv beta zeta. revert Hfold.
  destruct (foldr _ _ _) as [m | e]; intros Hfold.
  - destruct (nilAmount t) eqn:En; [| done]. exfalso.
    apply nilAmount_true in En as (k & v & Hk & Hl & Hv).
    rewrite Forall_forall in Hfold.
    destruct (Hfold (k, v)) as [v' Hv'].
    { by apply elem_of_map_to_list. }
    cbn [fst snd] in Hv'. assert (Hbad := proj2 (Hconv v k) (conj Hk Hv)). congruence.
  - destruct Hfold as [-> Hex]. split; [done |].
    apply Exists_exists in Hex as ([k v] & Hin & Hc).
    apply elem_of_map_to_list in Hin. cbn [fst snd] in Hc.
    apply Hconv in Hc as [Hk Hv]. apply nilAmount_true. by exists k, v.
Qed.

(** X22: [toDb] throws exactly for a record that has [cryptoAtoms] or
    [fiat] set to null or undefined, and what it throws is the TypeError of
    calling [toString] on it. *)
Theorem toDb_throws_iff_nil_amount (t : tx) :
  (toDb snakeCase t = Err typeError ↔ nilAmount t = true)
  ∧ ((∃ dbTx, toDb snakeCase t = Ok dbTx) ↔ nilAmount t = false).
Proof.
  pose proof (toDb_nilAmount t) as H.
  destruct (toDb snakeCase t) as [d | e].
  - rewrite H. split; [split; intros; done | split; [done | by exists d]].
  - destruct H as [-> ->]. split; [done |].
    split; [by intros [d ?] | done].
Qed.

(** X23: a record whose amount is null cannot be stored: insert rejects
    with the TypeError, and so does every update with a patch that is not
    empty; neither writes anything. *)
Theorem nil_amount_is_never_written (t c : tx) (w : world) :
  nilAmount t = true →
  insert snakeCase toObjRow t w = (w, Err typeError)
  ∧ (isEmpty c = false → update snakeCase t c w = (w, Err typeError)).
Proof.
  intros Hnil. pose proof (toDb_nilAmount t) as H.
  unfold insert, update, bind, liftR.
  destruct (toDb snakeCase t) as [d | e].
  - congruence.
  - destruct H as [-> _]. split; [done |]. by intros ->.
Qed.

End AmountProperties.

(** A first sight without an amount is rejected before any row exists. *)
Lemma nil_amount_is_never_written_sample :
  insert sampleSnakeCase sampleToObj noAmountTx emptyWorld
  = (emptyWorld, Err typeError).
Proof.
  apply (nil_amount_is_never_written sampleSnakeCase sampleToObj noAmountTx
           emptyObj emptyWorld).
  reflexivity.
Defined.

(** ** What [toDb] writes *)

Lemma in_head {A} (a : A) (l : list A) : a ∈ a :: l.
Proof. apply elem_of_cons. by left. Qed.

Lemma in_tail {A} (x a : A) (l : list A) : x ∈ l → x ∈ a :: l.
Proof. intros H. apply elem_of_cons. by right. Qed.

Lemma foldl_insert_lookup (f : string → string) (l : list (string * value))
    (acc : gmap string value) (j : string) (x : value) :
  (∀ kv kv', kv ∈ l → kv' ∈ l → f kv.1 = f kv'.1 → kv = kv') →
  foldl (λ acc kv, <[f kv.1 := kv.2]> acc) acc l !! j = Some x
  ↔ (∃ kv, kv ∈ l ∧ f kv.1 = j ∧ kv.2 = x)
    ∨ ((∀ kv, kv ∈ l → f kv.1 ≠ j) ∧ acc !! j = Some x).
Proof.
  revert acc. induction l as [| a l IH]; intros acc Huniq; cbn.
  - split; [intros H; right; split; [by intros kv ?%elem_of_nil | done]
           | intros [(kv & ?%elem_of_nil & _) | [_ H]]; done].
  - rewrite IH by (intros kv kv' ? ?; apply Huniq; by apply in_tail).
    destruct (decide (f a.1 = j)) as [Ha | Ha].
    + rewrite Ha, lookup_insert_eq. split.
      * intros [(kv & Hin & Hj & Hx) | [Hno [= <-]]].
        -- left. exists kv. split; [by apply in_tail | done].
        -- left. exists a. split; [apply in_head | done].
      * intros [(kv & Hin & Hj & Hx) | [Hno _]].
        -- apply elem_of_cons in Hin as [-> | Hin].
           ++ destruct (decide (Exists (λ kv', f kv'.1 = j) l)) as [Hex | Hex].
              ** apply Exists_exists in Hex as (kv' & Hin' & Hj').
                 assert (a = kv') as <-.
                 { apply Huniq; [apply in_head
                                | by apply in_tail | congruence]. }
                 left. by exists a.
              ** right. split; [| by rewrite Hx].
                 intros kv' Hin' Hj'. apply Hex, Exists_exists. by exists kv'.
           ++ left. by exists kv.
        -- exfalso. apply (Hno a); [apply in_head | done].
    + rewrite lookup_insert_ne by done. split.
      * intros [(kv & Hin & Hj & Hx) | [Hno Hacc]].
        -- left. exists kv. split; [by apply in_tail | done].
        -- right. split; [| done]. intros kv [-> | Hin]%elem_of_cons; auto.
      * intros [(kv & Hin & Hj & Hx) | [Hno Hacc]].
        -- apply elem_of_cons in Hin as [-> | Hin]; [done |]. left. by exists kv.
        -- right. split; [| done]. intros kv Hin. apply Hno.
           by apply in_tail.
Qed.

Section Columns.

Variable snakeCase : string → string.

Lemma mapKeys_lookup (f : string → string) (m : gmap string value) (j : string)
    (x : value) :
  (∀ k1 k2, is_Some (m !! k1) → is_Some (m !! k2) → f k1 = f k2 → k1 = k2) →
  mapKeys f m !! j = Some x ↔ ∃ k, m !! k = Some x ∧ f k = j.
Proof.
  intros Hinj. unfold mapKeys. rewrite foldl_insert_lookup.
  - rewrite lookup_empty. split.
    + intros [([k v] & Hin%elem_of_map_to_list & Hj & Hx) | [_ ?]]; [| done].
      cbn in *. subst. by exists k.
    + intros (k & Hk & Hj). left. exists (k, x).
      split; [by apply elem_of_map_to_list | done].
  - intros [k1 v1] [k2 v2] H1%elem_of_map_to_list H2%elem_of_map_to_list Hf.
    cbn in Hf. assert (k1 = k2) as -> by (apply Hinj; by eauto). congruence.
Qed.

Lemma foldr_convert_lookup (convert : value → string → result value)
    (l : list (string * value)) (m' : gmap string value) :
  NoDup l.*1 →
  foldr (λ kv acc,
           match convert kv.2 kv.1, acc with
           | Ok v, Ok m => Ok (<[kv.1 := v]> m)
           | Err e, _ => Err e
           | _, Err e => Err e
           end) (Ok (∅ : gmap string value)) l = Ok m' →
  ∀ k x, m' !! k = Some x ↔ ∃ v, (k, v) ∈ l ∧ convert v k = Ok x.
Proof.
  revert m'. induction l as [| [k0 v0] l IH]; intros m' Hnd; cbn.
  - intros [= <-] k x. rewrite lookup_empty. split; [done |].
    by intros (v & ?%elem_of_nil & _).
  - apply NoDup_cons in Hnd as [Hk0 Hnd].
    destruct (convert v0 k0) as [v0' |] eqn:Ec; [| done].
    destruct (foldr _ _ l) as [m0 |] eqn:Ef; [| done].
    intros [= <-] k x. specialize (IH m0 Hnd eq_refl k x).
    destruct (decide (k = k0)) as [-> | Hne].
    + rewrite lookup_insert_eq. split.
      * intros [= <-]. exists v0. split; [apply in_head | done].
      * intros (v & [[= ->] | Hin]%elem_of_cons & Hc); [congruence |].
        destruct Hk0. apply list_elem_of_fmap. by exists (k0, v).
    + rewrite lookup_insert_ne by done. rewrite IH. split.
      * intros (v & Hin & Hc). exists v. split; [by apply in_tail | done].
      * intros (v & [[= -> ->] | Hin]%elem_of_cons & Hc); [done |]. by exists v.
Qed.

Lemma isAmountKey_true (k : string) :
  isAmountKey k = true ↔ k = "cryptoAtoms" ∨ k = "fiat".
Proof. apply includes_amount_keys. Qed.

(** X24: for a record without a nil amount whose properties go to distinct
    columns, [toDb] yields exactly one column per property other than
    [direction] and [bills]: the snake-cased name with the property's value;
    the two amounts are written as the strings [toString] gives, under the
    snake-cased name of the key with [#] appended. *)
Theorem toDb_columns (t : tx) :
  nilAmount t = false →
  (∀ k1 k2, is_Some (props t !! k1) → is_Some (props t !! k2) →
            columnOf snakeCase k1 = columnOf snakeCase k2 → k1 = k2) →
  ∃ dbTx, toDb snakeCase t = Ok dbTx
    ∧ ∀ c x, dbTx !! c = Some x
             ↔ ∃ k v, props t !! k = Some v ∧ k ≠ "direction" ∧ k ≠ "bills"
                      ∧ c = columnOf snakeCase k ∧ x = columnValue k v.
Proof.
  intros Hnil Hinj.
  pose proof (toDb_nilAmount snakeCase t) as Hok.
  unfold toDb, convertBigNumFields, mapValuesWithKey in *.
  cbv beta zeta in Hok |- *.
  destruct (foldr _ _ (map_to_list (props t))) as [m1 | e] eqn:Hfold;
    [| destruct Hok; congruence].
  clear Hok. eexists. split; [reflexivity |].
  pose proof (foldr_convert_lookup
                (λ (v : value) (key : string),
                   if includes (JPrim (VStr key)) ["cryptoAtoms"; "fiat"]
                   then match toString v with
                        | Some s => Ok (VStr s)
                        | None => Err typeError
                        end
                   else Ok v)
                _ _ (NoDup_fst_map_to_list (props t)) Hfold)
    as Hm1. cbv beta in Hm1.
  assert (∀ k x, m1 !! k = Some x
                 ↔ ∃ v, props t !! k = Some v ∧ x = columnValue k v) as Hm1'.
  { intros k x. rewrite Hm1. unfold columnValue, isAmountKey.
    split; intros (v & Hin & Hc); exists v.
    - apply elem_of_map_to_list in Hin. split; [done |].
      destruct (includes _ _); [| congruence].
      destruct (toString v); congruence.
    - split; [by apply elem_of_map_to_list |]. subst x.
      destruct (includes (JPrim (VStr k)) _) eqn:Ek; [| done].
      destruct (toString v) eqn:Ev; [done |]. exfalso.
      assert (nilAmount t = true); [| congruence].
      apply nilAmount_true. exists k, v. rewrite <- includes_amount_keys.
      split; [done |]. split; [done |]. by destruct v as [| | [|] | |]. }
  assert (∀ k, is_Some (m1 !! k) ↔ is_Some (props t !! k)) as Hdom.
  { intros k. unfold is_Some. split.
    - intros [x (v & Hv & _)%Hm1']. by exists v.
    - intros [v Hv]. exists (columnValue k v). apply Hm1'. by exists v. }
  set (convertKey := λ key : string,
         if includes (JPrim (VStr key)) ["cryptoAtoms"; "fiat"]
         then key +:+ "#" else key).
  assert (∀ k, columnOf snakeCase k = snakeCase (convertKey k)) as Hcol by done.
  assert (∀ k1 k2, is_Some (m1 !! k1) → is_Some (m1 !! k2) →
                   convertKey k1 = convertKey k2 → k1 = k2) as Hinj1.
  { intros k1 k2 H1%Hdom H2%Hdom Heq. apply Hinj; [done | done |].
    by rewrite !Hcol, Heq. }
  assert (∀ k, convertKey k = "direction" ↔ k = "direction") as Hdir.
  { intros k. unfold convertKey.
    destruct (includes _ _) eqn:E; [| done].
    apply includes_amount_keys in E as [-> | ->]; by split. }
  assert (∀ k, convertKey k = "bills" ↔ k = "bills") as Hbills.
  { intros k. unfold convertKey.
    destruct (includes _ _) eqn:E; [| done].
    apply includes_amount_keys in E as [-> | ->]; by split. }
  assert (∀ j x, delete "bills" (delete "direction" (mapKeys convertKey m1)) !! j
                 = Some x
                 ↔ ∃ k v, props t !! k = Some v ∧ k ≠ "direction" ∧ k ≠ "bills"
                          ∧ j = convertKey k ∧ x = columnValue k v) as Hm3.
  { intros j x. rewrite lookup_delete_Some, lookup_delete_Some.
    rewrite (mapKeys_lookup convertKey m1 j x Hinj1). split.
    - intros (Hb & Hd & k & (v & Hv & ->)%Hm1' & <-).
      exists k, v. repeat split; try done.
      + intros Hk. apply Hd. symmetry. by apply Hdir.
      + intros Hk. apply Hb. symmetry. by apply Hbills.
    - intros (k & v & Hv & Hd & Hb & -> & ->). repeat split.
      + intros Hk. apply Hb. by apply Hbills.
      + intros Hk. apply Hd. by apply Hdir.
      + exists k. split; [| done]. apply Hm1'. by exists v. }
  intros c x. rewrite mapKeys_lookup.
  - split.
    + intros (j & (k & v & Hv & Hd & Hb & -> & ->)%Hm3 & <-). by exists k, v.
    + intros (k & v & Hv & Hd & Hb & -> & ->). exists (convertKey k).
      split; [| done]. apply Hm3. by exists k, v.
  - intros j1 j2 [x1 (k1 & v1 & Hv1 & _ & _ & -> & _)%Hm3]
      [x2 (k2 & v2 & Hv2 & _ & _ & -> & _)%Hm3] Heq.
    f_equal. apply Hinj; [by eexists | by eexists | by rewrite !Hcol].
Qed.

End Columns.

(** The request of a dispense for 70: the amount is written as the string
    70 to the column fiat. *)
Lemma toDb_columns_sample :
  ∃ dbTx, toDb sampleSnakeCase dispenseRequest = Ok dbTx
          ∧ dbTx !! "fiat" = Some (VStr "70").
Proof.
  destruct (toDb_columns sampleSnakeCase dispenseRequest) as (dbTx & Hdb & Hcols).
  - reflexivity.
  - assert (∀ k, is_Some (props dispenseRequest !! k)
                 → k ∈ ["id"; "status"; "fiat"; "dispense"]) as Hkeys.
    { intros k [v Hv]. apply elem_of_list_to_map_2 in Hv.
      rewrite !elem_of_cons in Hv. rewrite !elem_of_cons.
      destruct Hv as [[= -> _] | [[= -> _] | [[= -> _] | [[= -> _] | Hv]]]]; auto.
      by apply elem_of_nil in Hv. }
    intros k1 k2 H1%Hkeys H2%Hkeys.
    rewrite !elem_of_cons in H1, H2.
    destruct H1 as [-> | [-> | [-> | [-> | H1]]]];
      [| | | | by apply elem_of_nil in H1];
      destruct H2 as [-> | [-> | [-> | [-> | H2]]]];
      try (by apply elem_of_nil in H2); vm_compute; congruence.
  - exists dbTx. split; [done |]. apply Hcols.
    exists "fiat", (VNum 70).
    split; [reflexivity |]. split; [discriminate |]. split; [discriminate |].
    split; reflexivity.
Defined.

(** ** The sweeps *)

Lemma sublist_filter_impl {A} (P Q : A → Prop) `{∀ x, Decision (P x)}
    `{∀ x, Decision (Q x)} (l : list A) :
  (∀ x, P x → Q x) → sublist (filter P l) (filter Q l).
Proof.
  intros Himpl. induction l as [| x l IH]; [constructor |].
  rewrite !filter_cons.
  destruct (decide (P x)) as [Hp | Hp], (decide (Q x)) as [Hq | Hq].
  - by constructor.
  - destruct Hq. by apply Himpl.
  - by constructor.
  - done.
Qed.

Lemma includes_elem_of (v : value) (array : list string) :
  includes (JPrim v) array = true ↔ ∃ s, s ∈ array ∧ v = VStr s.
Proof.
  unfold includes. rewrite bool_decide_eq_true, Exists_exists. done.
Qed.

Lemma prop_updateStatus_status (o n : tx) :
  prop (updateStatus o n) "status"
  = ratchetStatus (prop o "status") (prop n "status").
Proof. unfold updateStatus, set, prop, get. cbn [props]. by rewrite lookup_insert_eq. Qed.

(** X25: both incoming sweeps fetch the transactions younger than their
    threshold, so as long as ten minutes are no more than a week every
    transaction the live sweep fetches is fetched by the stale sweep too, in
    the same order; neither query changes a table. *)
Theorem live_sweep_within_stale_sweep (week minutes : Z)
    (toObjRow : gmap string value → tx) (now : Z) (w : world) :
  10 * minutes ≤ week →
  ∃ live stale,
    liveIncomingTxs minutes toObjRow now w = (w, Ok live)
    ∧ staleIncomingTxs week toObjRow now w = (w, Ok stale)
    ∧ sublist live stale.
Proof.
  intros Hage. eexists _, _. split; [reflexivity |]. split; [reflexivity |].
  apply fmap_sublist, sublist_filter_impl. intros row.
  unfold isOpenTx, STALE_LIVE_INCOMING_TX_AGE, STALE_INCOMING_TX_AGE.
  destruct (ageOf now row) as [a |]; [| done].
  rewrite !andb_True, !bool_decide_spec. intros [Ha Hs]. split; [lia |].
  apply Is_true_true in Hs. apply Is_true_true.
  apply includes_elem_of in Hs as (s & Hin & Hv). apply includes_elem_of.
  exists s. split; [| done].
  rewrite !elem_of_cons in Hin. rewrite !elem_of_cons. intuition.
Qed.

(** X26: a transaction is picked for notification only in status instant or
    confirmed, so never while the live sweep fetches it, and a confirmed one
    is fetched by neither incoming sweep, whatever the thresholds. *)
Theorem unnotified_row_not_polled (days minutes : Z) (now age : Z)
    (row : gmap string value) :
  isUnnotified days minutes now row = true →
  isOpenTx now ["notSeen"; "published"; "insufficientFunds"] age row = false
  ∧ (get row "status" = VStr "confirmed" →
     isOpenTx now
       ["notSeen"; "published"; "authorized"; "instant"; "rejected"; "insufficientFunds"]
       age row = false).
Proof.
  intros Hsel. unfold isUnnotified in Hsel.
  destruct (ageOf now row) as [a |] eqn:Ea; [| done].
  repeat (apply andb_prop in Hsel as [Hsel ?]).
  match goal with
  | H : includes _ _ = true |- _ =>
      apply includes_elem_of in H as (s & Hin & Hstatus)
  end.
  assert (s = "instant" ∨ s = "confirmed") as Hs.
  { rewrite !elem_of_cons, elem_of_nil in Hin. tauto. }
  unfold isOpenTx. rewrite Ea, Hstatus. split.
  - apply andb_false_intro2. apply not_true_is_false.
    intros (s' & Hin' & Heq)%includes_elem_of. injection Heq as <-.
    rewrite !elem_of_cons in Hin'. rewrite elem_of_nil in Hin'.
    destruct Hs as [-> | ->]; intuition congruence.
  - intros Hconf. apply andb_false_intro2. apply not_true_is_false.
    intros (s' & Hin' & Heq)%includes_elem_of. injection Heq as <-.
    injection Hconf as ->.
    rewrite !elem_of_cons in Hin'. rewrite elem_of_nil in Hin'.
    intuition congruence.
Qed.

Section MonitorProperties.

Variable snakeCase : string → string.
Variable toObjRow : gmap string value → tx.
Variable makeChange : list cassette → value → option (list bill).
Variable plugins : value → plugin.


End MonitorProperties.

(** One second after its creation the published transaction is in the live
    sweep, and so in the stale one. *)
Lemma live_sweep_within_stale_sweep_sample :
  ∃ live stale,
    liveIncomingTxs sampleMinutes sampleToObj 2000 recentWorld = (recentWorld, Ok live)
    ∧ staleIncomingTxs sampleWeek sampleToObj 2000 recentWorld = (recentWorld, Ok stale)
    ∧ sublist live stale.
Proof.
  apply (live_sweep_within_stale_sweep sampleWeek sampleMinutes sampleToObj 2000
           recentWorld).
  by vm_compute.
Defined.

(** An hour after the payment the confirmed transaction is up for
    notification and out of the live sweep. *)
Lemma unnotified_row_not_polled_sample :
  isOpenTx 3601000 ["notSeen"; "published"; "insufficientFunds"]
    (10 * sampleMinutes) unnotifiedRow = false.
Proof.
  apply (unnotified_row_not_polled sampleDays sampleMinutes 3601000
           (10 * sampleMinutes) unnotifiedRow); by vm_compute.
Defined.


(** ** Insert or update *)

Lemma preProcess_txs (oldTx : option tx) (n : tx) (pi : integration) (w : world) :
  cash_out_txs (preProcess oldTx n pi w).1 = cash_out_txs w.
Proof.
  destruct oldTx as [o |].
  - unfold preProcess.
    destruct (negb (strictEq _ _)).
    { unfold bind, logAction, insertAction, sell, ret, bind.
      by destruct (wasJustAuthorized _ _). }
    destruct (_ && _).
    { unfold bind, logDispense, bind, liftR.
      destruct (mapDispense _) as [mapped | e]; cbn; [| done].
      unfold updateCassettes.
      by destruct (bills _) as [[| b0 [| b1 rest]] |]. }
    destruct (_ && _); [done |].
    by destruct (_ && _).
  - unfold preProcess, catch, bind, liftR.
    destruct (isHd pi n) as [hd | e]; [| done].
    unfold nextHd. destruct (negb (truthy hd)); unfold bind, nextval, ret;
      cbn [fst snd]; by destruct (newAddress pi _).
Qed.

Section InsertOrUpdate.

Variable snakeCase : string → string.
Variable toObjRow : gmap string value → tx.
Variable makeChange : list cassette → value → option (list bill).

(** X28: the transaction of post inserts or updates by what the select
    finds: for an id without a row it leaves the rows that are there and
    appends at most one; for an id with one row it keeps the number of rows;
    for an id with several rows it rejects with the error of [oneOrNone]
    before anything happens. *)
Theorem transaction_inserts_or_updates (t : tx) (pi : integration) (w : world) :
  match filter (λ row, hasId (prop t "id") row) (cash_out_txs w) with
  | [] =>
      ∃ new, cash_out_txs (transaction snakeCase toObjRow t pi w).1
             = cash_out_txs w ++ new
             ∧ (length new ≤ 1)%nat
  | [_] =>
      length (cash_out_txs (transaction snakeCase toObjRow t pi w).1)
      = length (cash_out_txs w)
  | _ => transaction snakeCase toObjRow t pi w = (w, Err queryResultError)
  end.
Proof.
  unfold transaction, bind, selectById, liftR.
  destruct (filter _ (cash_out_txs w)) as [| row [| row' rows]]; [| | done];
    cbn [oneOrNone toObj fmap option_fmap option_map fst snd].
  - pose proof (preProcess_txs None t pi w) as Hpre.
    destruct (preProcess None t pi w) as [w1 [u | e]]; cbn [fst snd] in *.
    + unfold upsert, bind, insert, bind, liftR.
      destruct (toDb snakeCase u) as [d | e]; cbn; rewrite Hpre;
        [one_entry | no_entry].
    + rewrite Hpre. no_entry.
  - pose proof (preProcess_txs (Some (toObjRow row)) t pi w) as Hpre.
    destruct (preProcess (Some (toObjRow row)) t pi w) as [w1 [u | e]];
      cbn [fst snd] in *; [| by rewrite Hpre].
    unfold upsert, bind.
    pose proof (update_touches_only_its_rows_len snakeCase u
                  (diff (Some (toObjRow row)) u) w1) as Hlen.
    destruct (update snakeCase u (diff (Some (toObjRow row)) u) w1)
      as [w2 [n | e]]; unfold ret; cbn [fst snd] in *; by rewrite Hlen, Hpre.
Qed.

(** X29: when the transaction left the old row and a record without bills,
    dispensing or redemption is newly requested, the cassettes are read,
    [makeChange] returns bills and the record can be written, post resolves
    to the record with the bills attached, appends the provisionNotes entry
    on top of what the transaction logged, and writes the record's columns
    once more to the rows of its id. *)
Theorem post_attaches_bills (t oldTx newTx : tx) (pi : integration)
    (cassettes : list cassette) (b0 b1 : bill) (rest : list bill)
    (dbTx : gmap string value) (w w1 : world) :
  transaction snakeCase toObjRow t pi w = (w1, Ok (Some oldTx, newTx)) →
  (truthy (prop newTx "dispense") = true ∧ truthy (prop oldTx "dispense") = false)
  ∨ (truthy (prop newTx "redeem") = true ∧ truthy (prop oldTx "redeem") = false) →
  buildCassettes pi = Ok cassettes →
  makeChange cassettes (prop newTx "fiat") = Some (b0 :: b1 :: rest) →
  bills newTx = None →
  toDb snakeCase newTx = Ok dbTx →
  (post snakeCase toObjRow makeChange t pi w).2
  = Ok (setBills (b0 :: b1 :: rest) newTx)
  ∧ cash_out_actions (post snakeCase toObjRow makeChange t pi w).1
    = cash_out_actions w1 ++ [provisionNotesEntry b0 b1 newTx]
  ∧ cash_out_txs (post snakeCase toObjRow makeChange t pi w).1
    = (λ row, if hasId (prop newTx "id") row then setColumns dbTx row else row)
        <$> cash_out_txs w1.
Proof.
  intros Htx Hreq Hcas Hchange Hbills Hdb.
  unfold post, bind. rewrite Htx. cbn [snd].
  unfold postProcess, bind, liftR, catch.
  rewrite (newlyRequested_true _ _ Hreq), Hcas. cbn. rewrite Hchange. cbn.
  unfold update, isEmpty. cbn [bills setBills]. rewrite andb_false_r.
  unfold bind, liftR. rewrite Hdb. cbn.
  split; [| done]. f_equal. unfold mergeTx, setBills. cbn [props bills].
  rewrite Hbills, mergeObj_included by done. cbn. by rewrite app_nil_r.
Qed.

End InsertOrUpdate.

(** Seventy is requested for a stored transaction and paid with a twenty and
    a fifty: the record comes back with the two bills. *)
Lemma post_attaches_bills_sample :
  (post sampleSnakeCase sampleToObj oneOfEach dispenseRequest sampleIntegration
     storedIdle).2
  = Ok (setBills [Bill 1 0 0 20; Bill 1 0 0 50] dispenseRequest).
Proof.
  apply (post_attaches_bills sampleSnakeCase sampleToObj oneOfEach dispenseRequest
           (sampleToObj idleRow) dispenseRequest sampleIntegration
           [Cassette 20 5; Cassette 50 5] (Bill 1 0 0 20) (Bill 1 0 0 50) []
           (obj [("id", VStr "t1"); ("status", VStr "confirmed");
                 ("fiat", VStr "70"); ("dispense", VBool true)])
           storedIdle
           (transaction sampleSnakeCase sampleToObj dispenseRequest
              sampleIntegration storedIdle).1).
  - vm_compute. reflexivity.
  - left. vm_compute. split; reflexivity.
  - reflexivity.
  - reflexivity.
  - reflexivity.
  - vm_compute. reflexivity.
Defined.

End CashOutTx.
